(** * follow-me-drone: command channel, gesture detector, PID and face tracker

    A shallow embedding of the Python sources under [followme/] and
    [scripts/], followed by the properties checked against them.

    Conventions of the embedding:
    - a Python object with mutable attributes is a record; a method takes the
      record and returns the new record next to its result;
    - Python [int] is [Z]; Python [float] is idealised as an exact rational
      [Q] (no rounding, no infinities, no NaN);
    - the clocks [time.time()] and [time.monotonic()] are inputs of the calls
      that read them;
    - an exception is an explicit [Raise e] result;
    - [logger] calls do not influence any result and are left out. *)

From Stdlib Require Import String ZArith QArith Qabs List Bool Lia Lqa.
Import ListNotations.

Local Open Scope Z_scope.

(** ** Python results *)

Module Py.

Inductive exn : Type :=
| FileNotFoundError
| UnpicklingError
| EOFError
| ValueError
| PermissionError
| ImportError.

Inductive result (A : Type) : Type :=
| Ok (a : A)
| Raise (e : exn).

Arguments Ok {A} a.
Arguments Raise {A} e.

End Py.

(** ** followme/commands.py *)

Module Commands.
Import Py.

(** [class Command(IntEnum)] *)
Inductive Command : Type :=
| CIRCLE_MOTION
| TAKE_PHOTO.

Definition value (c : Command) : Z :=
  match c with
  | CIRCLE_MOTION => 1
  | TAKE_PHOTO => 2
  end.

(** [cls(count)]: the enum lookup by value; [ValueError] when no member
    carries the value. *)
Definition Command_of_value (count : Z) : result Command :=
  if count =? 1 then Ok CIRCLE_MOTION
  else if count =? 2 then Ok TAKE_PHOTO
  else Raise ValueError.

(** [Command.from_snap_count]: the [try ... except ValueError] turns the
    failed lookup into [None] ([ValueError] is all the lookup raises). *)
Definition from_snap_count (count : Z) : option Command :=
  match Command_of_value count with
  | Ok c => Some c
  | Raise _ => None
  end.

End Commands.

(** ** followme/ipc.py *)

Module IPC.
Import Py Commands.

(** What [pickle.load] finds in a file: either the list that
    [pickle.dump] stored, or bytes on which loading raises [e]. *)
Inductive file : Type :=
| Pickled (data : list Z)
| Unloadable (e : exn).

(** The two paths the channel touches: the cache file and its
    [.pkl.tmp] sibling.  [None] is a path that does not exist. *)
Record disk : Type := mkDisk {
  cache_path : option file;
  tmp_path : option file
}.

Definition no_files : disk := mkDisk None None.

(** [CommandChannel]: the only mutable attribute is [_read_index]. *)
Record CommandChannel : Type := mkChannel {
  _read_index : nat
}.

Definition new_channel : CommandChannel := mkChannel 0.

(** [_write_atomic]: dump to the temporary path, then [os.replace] it over
    the cache path (the temporary name is gone afterwards). *)
Definition _write_atomic (data : list Z) (d : disk) : disk :=
  let d1 := mkDisk (cache_path d) (Some (Pickled data)) in
  mkDisk (tmp_path d1) None.

Definition initialize (d : disk) : disk := _write_atomic [] d.

Definition write_commands (commands : list Z) (d : disk) : disk :=
  _write_atomic commands d.

(** [open(self._cache_path, "rb")] followed by [pickle.load(f)]. *)
Definition load_cache (d : disk) : result (list Z) :=
  match cache_path d with
  | None => Raise FileNotFoundError
  | Some (Pickled data) => Ok data
  | Some (Unloadable e) => Raise e
  end.

(** The [while self._read_index < len(all_snaps)] loop.  Every iteration
    increments the index, so [len(all_snaps)] iterations are enough; the
    fuel is that bound. *)
Fixpoint read_loop (fuel : nat) (all_snaps : list Z) (read_index : nat)
    (new_commands : list Command) : nat * list Command :=
  match fuel with
  | O => (read_index, new_commands)
  | S fuel' =>
      if (read_index <? length all_snaps)%nat then
        match nth_error all_snaps read_index with
        | Some snap_count =>
            let read_index := S read_index in
            match from_snap_count snap_count with
            | Some cmd =>
                read_loop fuel' all_snaps read_index (new_commands ++ [cmd])
            | None =>
                read_loop fuel' all_snaps read_index new_commands
            end
        | None => (read_index, new_commands)
        end
      else (read_index, new_commands)
  end.

(** [read_new_commands]: the three handled exceptions give [[]] and leave
    the channel alone; any other exception propagates. *)
Definition read_new_commands (ch : CommandChannel) (d : disk)
    : result (list Command) * CommandChannel :=
  match load_cache d with
  | Raise FileNotFoundError => (Ok [], ch)
  | Raise UnpicklingError => (Ok [], ch)
  | Raise EOFError => (Ok [], ch)
  | Raise e => (Raise e, ch)
  | Ok all_snaps =>
      let '(read_index, new_commands) :=
        read_loop (length all_snaps) all_snaps (_read_index ch) [] in
      (Ok new_commands, mkChannel read_index)
  end.


(** The reading of [read_new_commands] that its docstring and return type
    [List[Optional[Command]]] describe: one entry per new element, [None]
    standing for an unrecognized snap count. *)
Definition documented_entries (all_snaps : list Z) (read_index : nat)
    : list (option Command) :=
  map from_snap_count (skipn read_index all_snaps).

(** What the loop collects, as a list function. *)
Fixpoint recognized (snaps : list Z) : list Command :=
  match snaps with
  | [] => []
  | s :: rest =>
      match from_snap_count s with
      | Some cmd => cmd :: recognized rest
      | None => recognized rest
      end
  end.

End IPC.

(** ** Python numbers *)

Module Num.

Local Open Scope Q_scope.

(** Strict comparison of two floats, as a boolean. *)
Definition Qlt_bool (x y : Q) : bool :=
  (Qnum x * QDen y <? Qnum y * QDen x)%Z.

(** The builtin [max(a, b)]: [b] when [b > a], else [a]. *)
Definition py_max (a b : Q) : Q := if Qlt_bool a b then b else a.

(** The builtin [min(a, b)]: [b] when [b < a], else [a]. *)
Definition py_min (a b : Q) : Q := if Qlt_bool b a then b else a.

(** [int(x)] on a float: truncation toward zero. *)
Definition py_int (x : Q) : Z := Z.quot (Qnum x) (QDen x).

(** [np.clip(x, lo, hi)], which is [minimum(maximum(x, lo), hi)]. *)
Definition np_clip (x lo hi : Q) : Q := py_min (py_max x lo) hi.

(** The clock values [stamp] reads off a sequence never go backwards. *)
Fixpoint nondecreasing_by {A : Type} (stamp : A -> Q) (l : list A) : Prop :=
  match l with
  | a :: rest =>
      match rest with
      | b :: _ => stamp a <= stamp b /\ nondecreasing_by stamp rest
      | [] => True
      end
  | [] => True
  end.

End Num.

(** ** followme/gesture.py *)

Module Gesture.
Import Num.

(** The fields of [GestureConfig] that [SnapDetector] reads. *)
Record GestureConfig : Type := mkGestureConfig {
  snap_threshold : Z;
  snap_time_window : Q
}.

Record SnapDetector : Type := mkSnapDetector {
  _threshold : Z;
  _time_window : Q;
  _valid : bool;
  _snap_count : Z;
  _prev_snap_time : option Q
}.

(** [SnapDetector.__init__] *)
Definition SnapDetector_init (config : GestureConfig) : SnapDetector :=
  mkSnapDetector (snap_threshold config) (snap_time_window config)
                 true 0 None.

Definition set_valid (self : SnapDetector) (v : bool) : SnapDetector :=
  mkSnapDetector (_threshold self) (_time_window self) v
                 (_snap_count self) (_prev_snap_time self).

Definition set_burst (self : SnapDetector) (count : Z) (t : option Q)
    : SnapDetector :=
  mkSnapDetector (_threshold self) (_time_window self) (_valid self)
                 count t.

(** [_detect_edge] *)
Definition _detect_edge (self : SnapDetector) (diff : Z)
    : bool * SnapDetector :=
  if (diff >? _threshold self) && _valid self then
    (true, set_valid self false)
  else if (diff <? _threshold self) && negb (_valid self) then
    (false, set_valid self true)
  else (false, self).

(** [process_reading]; [now] is the value [time.time()] returns. *)
Definition process_reading (self : SnapDetector) (sensor1 sensor2 : Z)
    (now : Q) : option Z * SnapDetector :=
  let diff := sensor2 - sensor1 in
  let '(is_snap, self) := _detect_edge self diff in
  if is_snap then
    if _snap_count self =? 0 then
      (None, set_burst self 1 (Some now))
    else
      (None, set_burst self (_snap_count self + 1) (Some now))
  else
    match _prev_snap_time self with
    | Some prev =>
        if (_snap_count self >? 0) && Qlt_bool (_time_window self) (now - prev)
        then (Some (_snap_count self), set_burst self 0 None)
        else (None, self)
    | None => (None, self)
    end.

(** [reset] *)
Definition reset (self : SnapDetector) : SnapDetector :=
  mkSnapDetector (_threshold self) (_time_window self) true 0 None.

(** One line of sensor data together with the clock value of the call
    that processes it. *)
Record reading : Type := mkReading {
  sensor1 : Z;
  sensor2 : Z;
  at_time : Q
}.

Definition diff_of (r : reading) : Z := sensor2 r - sensor1 r.

(** Feeding a stream of readings to [process_reading], as the loop of
    [run_gesture.main] does; the results are kept in call order. *)
Fixpoint process_all (self : SnapDetector) (rs : list reading)
    : list (option Z) * SnapDetector :=
  match rs with
  | [] => ([], self)
  | r :: rest =>
      let '(out, self) :=
        process_reading self (sensor1 r) (sensor2 r) (at_time r) in
      let '(outs, self) := process_all self rest in
      (out :: outs, self)
  end.

(** A spike and what follows it up to the next spike: one reading above
    the threshold, then readings below it (the first of which re-arms the
    gate). *)
Record pulse : Type := mkPulse {
  spike : reading;
  quiet : list reading
}.

Definition pulse_readings (p : pulse) : list reading := spike p :: quiet p.

Definition burst_readings (ps : list pulse) : list reading :=
  flat_map pulse_readings ps.

Definition is_pulse (threshold : Z) (p : pulse) : Prop :=
  threshold < diff_of (spike p)
  /\ quiet p <> []
  /\ Forall (fun r => diff_of r < threshold) (quiet p).

(** The readings come in the order of their clock values. *)
Definition chronological (rs : list reading) : Prop :=
  nondecreasing_by at_time rs.

(** Consecutive spikes are less than [window] apart. *)
Fixpoint gaps_below (window : Q) (ps : list pulse) : Prop :=
  match ps with
  | p :: rest =>
      match rest with
      | q :: _ =>
          (at_time (spike q) - at_time (spike p) < window)%Q
          /\ gaps_below window rest
      | [] => True
      end
  | [] => True
  end.

(** The quiet readings after the spike of [p] reach a moment more than
    [window] after it. *)
Definition closes_after (window : Q) (p : pulse) : Prop :=
  Exists (fun r => (window < at_time r - at_time (spike p))%Q) (quiet p).

(** Feeding a stream of differences to the gate alone. *)
Fixpoint detect_all (self : SnapDetector) (diffs : list Z)
    : list bool * SnapDetector :=
  match diffs with
  | [] => ([], self)
  | d :: rest =>
      let '(e, self) := _detect_edge self d in
      let '(es, self) := detect_all self rest in
      (e :: es, self)
  end.

End Gesture.

(** ** followme/pid.py *)

Module PID.
Import Num.
Local Open Scope Q_scope.

Record PIDConfig : Type := mkPIDConfig {
  kp : Q;
  ki : Q;
  kd : Q
}.

Record PIDController : Type := mkPID {
  config : PIDConfig;
  output_limits : Q * Q;
  integral_limit : option Q;
  _integral : Q;
  _prev_error : option Q;
  _last_time : option Q
}.

(** The dataclass constructor: the three internal fields start at
    [0.0], [None], [None]. *)
Definition PIDController_init (config : PIDConfig) (output_limits : Q * Q)
    (integral_limit : option Q) : PIDController :=
  mkPID config output_limits integral_limit 0 None None.

(** The time step [update] works with: the argument when one is given,
    else the clock difference to the previous call ([0.0] on the first). *)
Definition effective_dt (self : PIDController) (now : Q) (dt : option Q)
    : Q :=
  match dt with
  | Some d => d
  | None =>
      match _last_time self with
      | Some last => now - last
      | None => 0
      end
  end.

(** The accumulator after [self._integral += error * dt] and the
    anti-windup clamp. *)
Definition next_integral (self : PIDController) (error dt : Q) : Q :=
  let integral := _integral self + error * dt in
  match integral_limit self with
  | Some limit => py_max (- limit) (py_min limit integral)
  | None => integral
  end.

(** [update]; [now] is the value [time.monotonic()] returns. *)
Definition update (self : PIDController) (now : Q) (error : Q)
    (dt : option Q) : Q * PIDController :=
  let dt := effective_dt self now dt in
  let p_term := kp (config self) * error in
  let integral := next_integral self error dt in
  let i_term := ki (config self) * integral in
  let d_term :=
    match _prev_error self with
    | Some prev =>
        if Qlt_bool 0 dt then kd (config self) * (error - prev) / dt else 0
    | None => 0
    end in
  let output := p_term + i_term + d_term in
  let '(lo, hi) := output_limits self in
  (py_max lo (py_min hi output),
   mkPID (config self) (output_limits self) (integral_limit self)
         integral (Some error) (Some now)).

(** [reset] *)
Definition reset (self : PIDController) : PIDController :=
  mkPID (config self) (output_limits self) (integral_limit self)
        0 None None.

(** One [update] call: the clock value it reads and its two arguments. *)
Record call : Type := mkCall {
  call_now : Q;
  call_error : Q;
  call_dt : option Q
}.

Definition step (self : PIDController) (c : call) : PIDController :=
  snd (update self (call_now c) (call_error c) (call_dt c)).

(** The controller after a sequence of [update] calls. *)
Definition run (self : PIDController) (calls : list call) : PIDController :=
  fold_left step calls self.

(** The errors of the calls are all non-negative, or all non-positive. *)
Definition constant_sign (calls : list call) : Prop :=
  Forall (fun c => 0 <= call_error c) calls
  \/ Forall (fun c => call_error c <= 0) calls.

(** [x] lies on the side of zero the errors lie on. *)
Definition same_side (nonneg : bool) (x : Q) : Prop :=
  if nonneg then 0 <= x else x <= 0.

(** What holds of the accumulator while errors of one sign are fed to a
    fresh controller: it stays within the limit, and on the side of the
    errors when the limit is a proper (non-negative) one. *)
Definition integral_ok (nonneg : bool) (self : PIDController) : Prop :=
  match integral_limit self with
  | None => same_side nonneg (_integral self)
  | Some limit =>
      Qabs (_integral self) <= Qabs limit
      /\ (0 <= limit -> same_side nonneg (_integral self))
  end.

(** The time step is not negative in any of the calls, made one after
    the other from [self]. *)
Fixpoint dts_nonneg (self : PIDController) (calls : list call) : Prop :=
  match calls with
  | [] => True
  | c :: rest =>
      0 <= effective_dt self (call_now c) (call_dt c)
      /\ dts_nonneg (step self c) rest
  end.

(** The clock value a controller remembers is that of one of [calls]. *)
Definition remembers (self : PIDController) (calls : list call) : Prop :=
  forall last : Q,
    _last_time self = Some last ->
    exists c : call, In c calls /\ last = call_now c.

(** Where a call passes [dt], it is not negative. *)
Definition given_dt_nonneg (calls : list call) : Prop :=
  Forall (fun c => match call_dt c with
                   | Some d => 0 <= d
                   | None => True
                   end) calls.

(** [time.monotonic()] does not go backwards from one call to the next. *)
Definition clock_monotonic (calls : list call) : Prop :=
  nondecreasing_by call_now calls.

End PID.

(** ** followme/drone_controller.py and followme/face_detector.py *)

Module Tracker.
Import Py Num.

(** [collections.deque] with a [maxlen]. *)
Record deque : Type := mkDeque {
  maxlen : nat;
  items : list (Z * Z)
}.

(** [deque(maxlen=n)] raises [ValueError] for a negative [n]. *)
Definition deque_init (n : Z) : result deque :=
  if n <? 0 then Raise ValueError else Ok (mkDeque (Z.to_nat n) []).

(** [append]: the new item goes to the right end; when that makes the
    deque longer than [maxlen], the leftmost item is dropped. *)
Definition deque_append (d : deque) (x : Z * Z) : deque :=
  let items' := items d ++ [x] in
  if (maxlen d <? length items')%nat
  then mkDeque (maxlen d) (tl items')
  else mkDeque (maxlen d) items'.

Definition deque_clear (d : deque) : deque := mkDeque (maxlen d) [].

(** The slice [l[start:]] of a list. *)
Definition slice_from {A : Type} (start : Z) (l : list A) : list A :=
  let n := Z.of_nat (length l) in
  let s := if start <? 0 then Z.max (start + n) 0 else Z.min start n in
  skipn (Z.to_nat s) l.

Record DroneConfig : Type := mkDroneConfig {
  frame_width : Z;
  frame_height : Z;
  height_limit : Z;
  takeoff_ascent_speed : Z;
  takeoff_ascent_duration : Q
}.

Record TrackingConfig : Type := mkTrackingConfig {
  pid : PID.PIDConfig;
  face_area_min : Z;
  face_area_max : Z;
  yaw_speed_limit : Z;
  vertical_speed_limit : Z;
  vertical_speed_scale : Q;
  forward_speed : Z;
  backward_speed : Z;
  target_x_fraction : Q;
  target_y_fraction : Q;
  lost_face_threshold : Z;
  search_rotation_speed : Z;
  loop_interval : Q
}.

(** The defaults of followme/config.py. *)
Definition default_drone_config : DroneConfig :=
  mkDroneConfig 960 720 220 25 3.

Definition default_tracking_config : TrackingConfig :=
  mkTrackingConfig (PID.mkPIDConfig (2 # 10) (4 # 100) (5 # 1000))
                   14000 15000 100 40 (5 # 10) 20 (-20)
                   (5 # 10) (25 # 100) 15 40 (1 # 10).

(** [FaceInfo] of followme/face_detector.py. *)
Record FaceInfo : Type := mkFaceInfo {
  center_x : Z;
  center_y : Z;
  area : Z;
  bbox : Z * Z * Z * Z
}.

Record FaceTracker : Type := mkFaceTracker {
  _config : TrackingConfig;
  _frame_w : Z;
  _frame_h : Z;
  _target_x : Z;
  _target_y : Z;
  _yaw_pid : PID.PIDController;
  _vertical_pid : PID.PIDController;
  _center_history : deque;
  _center_history_size : Z;
  _last_known_direction : string
}.

(** [FaceTracker.__init__] *)
Definition FaceTracker_init (config : TrackingConfig)
    (drone_config : DroneConfig) : result FaceTracker :=
  let frame_w := frame_width drone_config in
  let frame_h := frame_height drone_config in
  let target_x := py_int (inject_Z frame_w * target_x_fraction config) in
  let target_y := py_int (inject_Z frame_h * target_y_fraction config) in
  let yaw_pid :=
    PID.PIDController_init (pid config)
      (inject_Z (- yaw_speed_limit config),
       inject_Z (yaw_speed_limit config)) None in
  let vertical_pid :=
    PID.PIDController_init (pid config)
      (inject_Z (- vertical_speed_limit config),
       inject_Z (vertical_speed_limit config)) None in
  match deque_init (frame_width drone_config) with
  | Raise e => Raise e
  | Ok history =>
      Ok (mkFaceTracker config frame_w frame_h target_x target_y
                        yaw_pid vertical_pid history 20 "+")
  end.

(** The tracker [FaceTracker_init] builds from the default
    configuration: target (480, 180) in a 960 x 720 frame. *)
Definition default_tracker : FaceTracker :=
  mkFaceTracker default_tracking_config 960 720 480 180
    (PID.PIDController_init (pid default_tracking_config)
       (inject_Z (- (100)), inject_Z 100) None)
    (PID.PIDController_init (pid default_tracking_config)
       (inject_Z (- (40)), inject_Z 40) None)
    (mkDeque 960 []) 20 "+".

(** The default configuration with the loss threshold raised to the size
    of the look-back window. *)
Definition threshold_twenty_config : TrackingConfig :=
  mkTrackingConfig (PID.mkPIDConfig (2 # 10) (4 # 100) (5 # 1000))
                   14000 15000 100 40 (5 # 10) 20 (-20)
                   (5 # 10) (25 # 100) 20 40 (1 # 10).

Definition set_history (self : FaceTracker) (h : deque) : FaceTracker :=
  mkFaceTracker (_config self) (_frame_w self) (_frame_h self)
                (_target_x self) (_target_y self)
                (_yaw_pid self) (_vertical_pid self)
                h (_center_history_size self) (_last_known_direction self).

Definition set_direction (self : FaceTracker) (d : string) : FaceTracker :=
  mkFaceTracker (_config self) (_frame_w self) (_frame_h self)
                (_target_x self) (_target_y self)
                (_yaw_pid self) (_vertical_pid self)
                (_center_history self) (_center_history_size self) d.

Definition set_pids (self : FaceTracker) (yaw vertical : PID.PIDController)
    : FaceTracker :=
  mkFaceTracker (_config self) (_frame_w self) (_frame_h self)
                (_target_x self) (_target_y self)
                yaw vertical
                (_center_history self) (_center_history_size self)
                (_last_known_direction self).

(** The four speeds [(left_right, forward_back, up_down, yaw)]. *)
Definition control : Type := (Z * Z * Z * Z)%type.

(** [_compute_forward_back] *)
Definition _compute_forward_back (self : FaceTracker) (area : Z) : Z :=
  if (face_area_min (_config self) <=? area)
     && (area <=? face_area_max (_config self)) then 0
  else if area >? face_area_max (_config self) then
    backward_speed (_config self)
  else if area >? 0 then forward_speed (_config self)
  else 0.

(** [sum(1 for x, y in recent if x == 0 and y == 0)] *)
Fixpoint count_lost (recent : list (Z * Z)) : Z :=
  match recent with
  | [] => 0
  | (x, y) :: rest =>
      if (x =? 0) && (y =? 0) then 1 + count_lost rest else count_lost rest
  end.

(** [_handle_lost_face] *)
Definition _handle_lost_face (self : FaceTracker) : control * FaceTracker :=
  let self := set_history self (deque_append (_center_history self) (0, 0)) in
  let recent :=
    slice_from (- _center_history_size self) (items (_center_history self)) in
  let lost_count := count_lost recent in
  if lost_count >? lost_face_threshold (_config self) then
    let speed := search_rotation_speed (_config self) in
    let yaw :=
      if String.eqb (_last_known_direction self) "+" then speed
      else - speed in
    ((0, 0, 0, yaw), self)
  else ((0, 0, 0, 0), self).

(** [compute_control].  [height] is what [drone.get_height()] returns;
    [now_yaw] and [now_vertical] are the clock values the two PID updates
    read. *)
Definition compute_control (self : FaceTracker) (face : option FaceInfo)
    (height : Z) (now_yaw now_vertical : Q) : control * FaceTracker :=
  let _height_check :=
    if height >? face_area_max (_config self) then tt else tt in
  match face with
  | None => _handle_lost_face self
  | Some face =>
      let self :=
        if center_x face <? _frame_w self / 2
        then set_direction self "-"
        else set_direction self "+" in
      let self :=
        set_history self
          (deque_append (_center_history self)
                        (center_x face, center_y face)) in
      let x_error := center_x face - _target_x self in
      let y_error := center_y face - _target_y self in
      let '(yaw_out, yaw_pid) :=
        PID.update (_yaw_pid self) now_yaw (inject_Z x_error) None in
      let yaw_speed := py_int yaw_out in
      let '(vertical_raw, vertical_pid) :=
        PID.update (_vertical_pid self) now_vertical (inject_Z y_error)
                   None in
      let self := set_pids self yaw_pid vertical_pid in
      let y_speed :=
        py_int (np_clip
                  (- vertical_speed_scale (_config self) * vertical_raw)%Q
                  (inject_Z (- vertical_speed_limit (_config self)))
                  (inject_Z (vertical_speed_limit (_config self)))) in
      let fb := _compute_forward_back self (area face) in
      ((0, fb, y_speed, yaw_speed), self)
  end.

(** [reset] *)
Definition reset (self : FaceTracker) : FaceTracker :=
  let self :=
    set_pids self (PID.reset (_yaw_pid self))
             (PID.reset (_vertical_pid self)) in
  set_history self (deque_clear (_center_history self)).

(** What one control cycle hands to [compute_control]. *)
Record cycle : Type := mkCycle {
  cycle_face : option FaceInfo;
  cycle_height : Z;
  cycle_now_yaw : Q;
  cycle_now_vertical : Q
}.

Definition step (self : FaceTracker) (c : cycle) : control * FaceTracker :=
  compute_control self (cycle_face c) (cycle_height c)
                  (cycle_now_yaw c) (cycle_now_vertical c).

(** A sequence of [compute_control] calls: the outputs in call order and
    the tracker after the last one. *)
Fixpoint run (self : FaceTracker) (cs : list cycle)
    : list control * FaceTracker :=
  match cs with
  | [] => ([], self)
  | c :: rest =>
      let '(out, self) := step self c in
      let '(outs, self) := run self rest in
      (out :: outs, self)
  end.

(** The entry a call leaves in the history. *)
Definition history_entry (c : cycle) : Z * Z :=
  match cycle_face c with
  | Some face => (center_x face, center_y face)
  | None => (0, 0)
  end.

(** The append [_handle_lost_face] makes: one more sentinel. *)
Definition append_lost (d : deque) : deque := deque_append d (0, 0).

(** The yaw of a search rotation: [speed] for direction ["+"], [-speed]
    otherwise. *)
Definition search_yaw (self : FaceTracker) : Z :=
  if String.eqb (_last_known_direction self) "+"
  then search_rotation_speed (_config self)
  else - search_rotation_speed (_config self).

(** The four speeds respect the configuration: no strafing, one of the
    three forward/back values, the vertical speed within its limit, and a
    yaw within its limit or equal to the search speed in either sense. *)
Definition within_limits (cfg : TrackingConfig) (out : control) : Prop :=
  let '(lr, fb, ud, yaw) := out in
  lr = 0
  /\ (fb = 0 \/ fb = forward_speed cfg \/ fb = backward_speed cfg)
  /\ - vertical_speed_limit cfg <= ud <= vertical_speed_limit cfg
  /\ (- yaw_speed_limit cfg <= yaw <= yaw_speed_limit cfg
      \/ yaw = search_rotation_speed cfg
      \/ yaw = - search_rotation_speed cfg).

(** A cycle in which the detector found no face. *)
Definition lost_cycle (height : Z) (now : Q) : cycle :=
  mkCycle None height now now.

End Tracker.

(** ** scripts/run_tracker.py *)

Module RunTracker.
Import Commands Tracker.

(** The control part of one iteration of the loop in [main]: the tracker's
    command, replaced by a descent when the drone is above
    [height_limit].  [height_main] is the second [drone.get_height()]
    reading, the one [main] takes itself. *)
Definition control_iteration (drone_config : DroneConfig)
    (tracker : FaceTracker) (c : cycle) (height_main : Z)
    : control * FaceTracker :=
  let '((lr, fb, ud, yaw), tracker) := step tracker c in
  if height_main >? height_limit drone_config
  then ((0, 0, -10, 0), tracker)
  else ((lr, fb, ud, yaw), tracker).

(** The effect on the tracker of dispatching the commands read in one
    iteration: [CIRCLE_MOTION] resets it before the maneuver. *)
Definition dispatch (tracker : FaceTracker) (new_commands : list Command)
    : FaceTracker :=
  fold_left
    (fun t cmd =>
       match cmd with
       | CIRCLE_MOTION => reset t
       | TAKE_PHOTO => t
       end)
    new_commands tracker.

End RunTracker.

(** ** scripts/run_gesture.py *)

Module RunGesture.
Import Commands IPC Gesture.

(** What the loop of [main] carries from one iteration to the next: the
    detector and the list [all_snaps]. *)
Record writer : Type := mkWriter {
  detector : SnapDetector;
  all_snaps : list Z
}.

(** [main] up to the loop: [commands.initialize()] and the empty list. *)
Definition startup (config : GestureConfig) (d : disk) : writer * disk :=
  (mkWriter (SnapDetector_init config) [], initialize d).

(** One iteration of the [while True] loop.  [r] is what
    [reader.read_sensors()] returned, with the clock value the detector
    reads; [None] is the [continue]. *)
Definition iteration (w : writer) (d : disk) (r : option reading)
    : writer * disk :=
  match r with
  | None => (w, d)
  | Some r =>
      let '(snap_count, det) :=
        process_reading (detector w) (sensor1 r) (sensor2 r) (at_time r) in
      match snap_count with
      | Some n =>
          let all := all_snaps w ++ [n] in
          (mkWriter det all, write_commands all d)
      | None => (mkWriter det (all_snaps w), d)
      end
  end.

Fixpoint iterations (w : writer) (d : disk) (rs : list (option reading))
    : writer * disk :=
  match rs with
  | [] => (w, d)
  | r :: rest =>
      let '(w, d) := iteration w d r in
      iterations w d rest
  end.

(** The readings that were not skipped. *)
Fixpoint present (rs : list (option reading)) : list reading :=
  match rs with
  | [] => []
  | Some r :: rest => r :: present rest
  | None :: rest => present rest
  end.

(** The counts among the results of [process_reading]. *)
Fixpoint emitted (outs : list (option Z)) : list Z :=
  match outs with
  | [] => []
  | Some n :: rest => n :: emitted rest
  | None :: rest => emitted rest
  end.

End RunGesture.

(** ** The two processes around the cache file *)

Module Processes.
Import Py Commands IPC Gesture RunGesture.

(** What happens next: the sensing process runs one loop iteration, or the
    control process polls the channel. *)
Inductive event : Type :=
| Sensed (r : option reading)
| Poll.

Record system : Type := mkSystem {
  sys_writer : writer;
  sys_disk : disk;
  sys_reader : CommandChannel;
  sys_delivered : list Command
}.

(** The sensing process has started on whatever [d] held; the control
    process has a fresh channel and has received nothing. *)
Definition sys_start (config : GestureConfig) (d : disk) : system :=
  let '(w, d) := startup config d in
  mkSystem w d new_channel [].

(** A poll hands the commands it read to the dispatch of [main]; an
    exception out of [read_new_commands] ends the control loop, nothing
    more is delivered. *)
Definition sys_step (s : system) (e : event) : system :=
  match e with
  | Sensed r =>
      let '(w, d) := iteration (sys_writer s) (sys_disk s) r in
      mkSystem w d (sys_reader s) (sys_delivered s)
  | Poll =>
      match read_new_commands (sys_reader s) (sys_disk s) with
      | (Ok cmds, ch) =>
          mkSystem (sys_writer s) (sys_disk s) ch (sys_delivered s ++ cmds)
      | (Raise _, _) => s
      end
  end.

Definition sys_run (s : system) (es : list event) : system :=
  fold_left sys_step es s.

End Processes.

(** ** followme/drone_controller.py: the drone connection *)

Module Drone.

(** The calls [DroneConnection] makes on the [Tello] object. *)
Inductive tello_call : Type :=
| TConnect
| TGetBattery
| TStreamOn
| TTakeoff
| TSendRC (lr fb ud yaw : Z)
| TLand
| TStreamOff.

(** How a method ends: normally, or with the exception a [Tello] call
    raised. *)
Inductive outcome : Type :=
| Done
| Raised.

(** [_airborne] is the only attribute that changes; [ascent_speed] is
    [config.takeoff_ascent_speed]. *)
Record DroneConnection : Type := mkDrone {
  ascent_speed : Z;
  _airborne : bool
}.

(** [DroneConnection.__init__] *)
Definition DroneConnection_init (speed : Z) : DroneConnection :=
  mkDrone speed false.

(** A method's result: how it ended, the object afterwards and the calls
    it made on the drone, in order.  [fails] tells which calls the drone
    answers with an exception. *)
Definition effect : Type := (outcome * DroneConnection * list tello_call)%type.

(** [takeoff]: [_airborne] is set once [tello.takeoff()] has returned. *)
Definition takeoff (fails : tello_call -> bool) (self : DroneConnection)
    : effect :=
  if fails TTakeoff then (Raised, self, [TTakeoff])
  else
    let self := mkDrone (ascent_speed self) true in
    let rc := TSendRC 0 0 (ascent_speed self) 0 in
    if fails rc then (Raised, self, [TTakeoff; rc])
    else (Done, self, [TTakeoff; rc]).

(** [land]: nothing is sent unless airborne; [_airborne] is cleared once
    [tello.land()] has returned. *)
Definition land (fails : tello_call -> bool) (self : DroneConnection)
    : effect :=
  if _airborne self then
    if fails TLand then (Raised, self, [TLand])
    else (Done, mkDrone (ascent_speed self) false, [TLand])
  else (Done, self, []).

(** [cleanup]: the two [try] blocks, each swallowing its exception. *)
Definition cleanup (fails : tello_call -> bool) (self : DroneConnection)
    : effect :=
  let '(_, self, landing) := land fails self in
  (Done, self, landing ++ [TStreamOff]).

End Drone.

(** ** followme/face_detector.py *)

Module Detector.
Import Tracker.

(** A value of NumPy's [int32], the element type of the array
    [detectMultiScale] returns: arithmetic on it wraps around. *)
Definition wrap32 (z : Z) : Z := (z + 2 ^ 31) mod 2 ^ 32 - 2 ^ 31.

(** A row [(x, y, w, h)] of that array. *)
Definition box : Type := (Z * Z * Z * Z)%type.

Definition box_area (b : box) : Z :=
  let '(_, _, w, h) := b in wrap32 (w * h).

(** [np.argmax] scanning on from index [i]: [best] at [best_i] is the
    largest value so far, replaced only by a strictly larger one. *)
Fixpoint argmax_from (best_i : nat) (best : Z) (i : nat) (l : list Z) : nat :=
  match l with
  | [] => best_i
  | a :: rest =>
      if best <? a then argmax_from i a (S i) rest
      else argmax_from best_i best (S i) rest
  end.

(** [np.argmax(areas)]: the index of the first largest value. *)
Definition argmax (l : list Z) : nat :=
  match l with
  | [] => 0%nat
  | a :: rest => argmax_from 0 a 1 rest
  end.

(** [detect], from the boxes the cascade returns for the frame. *)
Definition detect (faces : list box) : option FaceInfo :=
  match faces with
  | [] => None
  | _ :: _ =>
      let areas := map box_area faces in
      let idx := argmax areas in
      match nth_error faces idx with
      | Some (x, y, w, h) =>
          Some (mkFaceInfo (wrap32 (x + w / 2)) (wrap32 (y + h / 2))
                           (wrap32 (w * h)) (x, y, w, h))
      | None => None
      end
  end.

(** Width times height of a box, as an integer. *)
Definition box_size (b : box) : Z :=
  let '(_, _, w, h) := b in w * h.

(** The coordinates of a box that OpenCV can return for a frame: none is
    negative and none reaches [2 ^ 15]. *)
Definition in_frame (b : box) : Prop :=
  let '(x, y, w, h) := b in
  0 <= x < 2 ^ 15 /\ 0 <= y < 2 ^ 15 /\ 0 <= w < 2 ^ 15 /\ 0 <= h < 2 ^ 15.

End Detector.

(** * Properties *)

(** ** Command channel *)

Import Py Commands IPC.

Lemma nth_error_skipn_cons {A : Type} (l : list A) (n : nat) (x : A) :
  nth_error l n = Some x -> skipn n l = x :: skipn (S n) l.
Proof.
  revert n; induction l as [|a l IH]; intros [|n] H; simpl in *;
    try discriminate.
  - now inversion H.
  - now apply IH.
Qed.

Lemma recognized_filter (snaps : list Z) (acc : list Command) (x : Z) :
  match from_snap_count x with
  | Some cmd => (acc ++ [cmd]) ++ recognized snaps
  | None => acc ++ recognized snaps
  end = acc ++ recognized (x :: snaps).
Proof.
  simpl. destruct (from_snap_count x); [now rewrite <- app_assoc | reflexivity].
Qed.

(** The loop, given its fuel, drains the log from the cursor on and keeps
    the recognized entries only. *)
Lemma read_loop_drains (fuel : nat) :
  forall (all_snaps : list Z) (read_index : nat) (acc : list Command),
    (length all_snaps - read_index <= fuel)%nat ->
    read_loop fuel all_snaps read_index acc =
    (Nat.max read_index (length all_snaps),
     acc ++ recognized (skipn read_index all_snaps)).
Proof.
  induction fuel as [|fuel IH]; intros snaps idx acc Hfuel; simpl.
  - rewrite skipn_all2 by lia. simpl. rewrite app_nil_r.
    f_equal. lia.
  - destruct (Nat.ltb_spec idx (length snaps)) as [Hlt|Hge].
    + destruct (nth_error snaps idx) as [x|] eqn:Hnth.
      * rewrite (nth_error_skipn_cons _ _ _ Hnth).
        rewrite <- recognized_filter.
        destruct (from_snap_count x); rewrite IH by lia;
          f_equal; lia.
      * apply nth_error_None in Hnth. lia.
    + rewrite skipn_all2 by lia. simpl. rewrite app_nil_r.
      f_equal. lia.
Qed.

(** On a readable log, [read_new_commands] returns the recognized new
    entries in log order and moves the cursor to the end of the log. *)
Lemma read_new_commands_recognized (ch : CommandChannel) (d : disk)
    (all_snaps : list Z) :
  cache_path d = Some (Pickled all_snaps) ->
  read_new_commands ch d =
  (Ok (recognized (skipn (_read_index ch) all_snaps)),
   mkChannel (Nat.max (_read_index ch) (length all_snaps))).
Proof.
  intros Hd. unfold read_new_commands, load_cache. rewrite Hd.
  rewrite read_loop_drains by lia. reflexivity.
Qed.

(** C1.  On the log [[1; 99; 2]] read from cursor 0, [read_new_commands]
    returns the two recognized commands and no entry for 99, where its
    documented result has three entries with [None] in the middle; the
    cursor does move to the end of the log. *)
Theorem read_new_commands_drops_unrecognized :
  let d := write_commands [1; 99; 2] no_files in
  read_new_commands new_channel d
    = (Ok [CIRCLE_MOTION; TAKE_PHOTO], mkChannel 3)
  /\ documented_entries [1; 99; 2] (_read_index new_channel)
    = [Some CIRCLE_MOTION; None; Some TAKE_PHOTO].
Proof. split; reflexivity. Qed.

(** C3.  Writing [[1; 2; 1]] and reading with a fresh cursor gives
    CIRCLE_MOTION, TAKE_PHOTO, CIRCLE_MOTION in that order; reading again
    without a write in between gives the empty list. *)
Theorem write_then_read_round_trip (d : disk) :
  let d' := write_commands [1; 2; 1] d in
  let first := read_new_commands new_channel d' in
  let second := read_new_commands (snd first) d' in
  fst first = Ok [CIRCLE_MOTION; TAKE_PHOTO; CIRCLE_MOTION]
  /\ fst second = Ok [].
Proof. split; reflexivity. Qed.



(** ** Python numbers *)

Import Num.

Lemma Qlt_bool_iff (x y : Q) : Qlt_bool x y = true <-> (x < y)%Q.
Proof. unfold Qlt_bool, Qlt. apply Z.ltb_lt. Qed.

Lemma Qlt_bool_false_iff (x y : Q) : Qlt_bool x y = false <-> (y <= x)%Q.
Proof. unfold Qlt_bool, Qle. apply Z.ltb_ge. Qed.

(** ** Hysteresis gate *)

Import Gesture.

Lemma detect_edge_threshold (d : SnapDetector) (x : Z) :
  _threshold (snd (_detect_edge d x)) = _threshold d.
Proof.
  unfold _detect_edge.
  destruct ((x >? _threshold d) && _valid d);
    [reflexivity|].
  destruct ((x <? _threshold d) && negb (_valid d)); reflexivity.
Qed.

(** A disarmed gate ignores a reading that is not below the threshold. *)
Lemma detect_edge_disarmed (d : SnapDetector) (x : Z) :
  _valid d = false -> _threshold d <= x ->
  _detect_edge d x = (false, d).
Proof.
  intros Hv Hx. unfold _detect_edge. rewrite Hv, andb_false_r. simpl.
  replace (x <? _threshold d) with false by (symmetry; apply Z.ltb_ge; lia).
  reflexivity.
Qed.

Lemma detect_all_disarmed (diffs : list Z) (d : SnapDetector) :
  _valid d = false ->
  Forall (fun x => _threshold d <= x) diffs ->
  detect_all d diffs = (repeat false (length diffs), d).
Proof.
  intros Hv. induction 1 as [|x diffs Hx _ IH]; simpl; [reflexivity|].
  rewrite detect_edge_disarmed by assumption. now rewrite IH.
Qed.

Lemma count_occ_repeat_false (n : nat) :
  count_occ bool_dec (repeat false n) true = 0%nat.
Proof. induction n; simpl; [reflexivity|assumption]. Qed.

Lemma detect_edge_fires (d : SnapDetector) (x : Z) :
  fst (_detect_edge d x) = true ->
  _detect_edge d x = (true, set_valid d false).
Proof.
  unfold _detect_edge.
  destruct ((x >? _threshold d) && _valid d); [reflexivity|].
  destruct ((x <? _threshold d) && negb (_valid d)); discriminate.
Qed.

Lemma detect_edge_quiet (d : SnapDetector) (x : Z) :
  _threshold d <= x ->
  fst (_detect_edge d x) = false ->
  _detect_edge d x = (false, d).
Proof.
  intros Hx. unfold _detect_edge.
  destruct ((x >? _threshold d) && _valid d); [discriminate|].
  replace (x <? _threshold d) with false by (symmetry; apply Z.ltb_ge; lia).
  reflexivity.
Qed.

Lemma detect_all_at_most_one (diffs : list Z) :
  forall d : SnapDetector,
    Forall (fun x => _threshold d <= x) diffs ->
    (count_occ bool_dec (fst (detect_all d diffs)) true <= 1)%nat.
Proof.
  induction diffs as [|x diffs IH]; intros d Hall; simpl; [lia|].
  inversion Hall as [|? ? Hx Hrest]; subst.
  destruct (fst (_detect_edge d x)) eqn:He.
  - rewrite (detect_edge_fires _ _ He).
    rewrite detect_all_disarmed by (simpl; first [reflexivity|assumption]).
    simpl. rewrite count_occ_repeat_false. lia.
  - rewrite (detect_edge_quiet _ _ Hx He).
    specialize (IH d Hrest).
    destruct (detect_all d diffs) as [es d']. simpl in *. exact IH.
Qed.

(** A reading that is not above the threshold is no edge. *)
Lemma detect_edge_low (d : SnapDetector) (x : Z) :
  x <= _threshold d -> fst (_detect_edge d x) = false.
Proof.
  intros Hx. unfold _detect_edge.
  replace (x >? _threshold d) with false
    by (symmetry; rewrite Z.gtb_ltb; apply Z.ltb_ge; lia).
  simpl. now destruct ((x <? _threshold d) && negb (_valid d)).
Qed.

Lemma detect_all_low_then_high (pre post : list Z) :
  forall d : SnapDetector,
    Forall (fun x => x <= _threshold d) pre ->
    Forall (fun x => _threshold d <= x) post ->
    (count_occ bool_dec (fst (detect_all d (pre ++ post))) true <= 1)%nat.
Proof.
  induction pre as [|x pre IH]; intros d Hpre Hpost.
  - now apply detect_all_at_most_one.
  - inversion Hpre as [|? ? Hx Hpre']; subst.
    pose proof (detect_edge_low d x Hx) as Hlow.
    pose proof (detect_edge_threshold d x) as Hth.
    simpl. destruct (_detect_edge d x) as [e d1]. simpl in Hlow, Hth.
    subst e. rewrite <- Hth in Hpre', Hpost.
    specialize (IH d1 Hpre' Hpost).
    destruct (detect_all d1 (pre ++ post)) as [es d2]. simpl in *. exact IH.
Qed.

(** C6.  Along readings that rise above the threshold and from then on
    are never strictly below it, the gate detects at most one edge; a
    detection disarms the gate, and it detects nothing in the readings
    that follow for as long as none of them is strictly below the
    threshold. *)
Theorem hysteresis_single_edge (d : SnapDetector) :
  (forall pre post : list Z,
      Forall (fun x => x <= _threshold d) pre ->
      Forall (fun x => _threshold d <= x) post ->
      (count_occ bool_dec (fst (detect_all d (pre ++ post))) true <= 1)%nat)
  /\ (forall (x : Z) (later : list Z),
        fst (_detect_edge d x) = true ->
        Forall (fun y => _threshold d <= y) later ->
        let after := snd (_detect_edge d x) in
        _valid after = false
        /\ detect_all after later = (repeat false (length later), after)).
Proof.
  split.
  - intros pre post. apply detect_all_low_then_high.
  - intros x later Hfire Hlater after. subst after.
    rewrite (detect_edge_fires _ _ Hfire). simpl.
    split; [reflexivity|].
    apply detect_all_disarmed; [reflexivity|exact Hlater].
Qed.

Lemma hysteresis_single_edge_witness :
  let d := SnapDetector_init (mkGestureConfig 50 (7 # 10)) in
  let pre := [10; 50] in
  let post := [60; 50; 70; 55] in
  Forall (fun x => x <= _threshold d) pre
  /\ Forall (fun x => _threshold d <= x) post
  /\ (count_occ bool_dec (fst (detect_all d (pre ++ post))) true <= 1)%nat.
Proof.
  intros d pre post.
  assert (Hpre : Forall (fun x => x <= _threshold d) pre)
    by (repeat constructor; simpl; lia).
  assert (Hpost : Forall (fun x => _threshold d <= x) post)
    by (repeat constructor; simpl; lia).
  refine (conj Hpre (conj Hpost _)).
  exact (proj1 (hysteresis_single_edge d) pre post Hpre Hpost).
Defined.

Example oscillation_above_threshold :
  fst (detect_all (SnapDetector_init (mkGestureConfig 50 (7 # 10)))
                  [10; 50; 60; 50; 70; 55; 49; 80])
  = [false; false; true; false; false; false; false; true].
Proof. reflexivity. Qed.

(** ** Gesture bursts *)

Lemma process_all_app (rs1 rs2 : list reading) (d : SnapDetector) :
  process_all d (rs1 ++ rs2) =
  (fst (process_all d rs1) ++ fst (process_all (snd (process_all d rs1)) rs2),
   snd (process_all (snd (process_all d rs1)) rs2)).
Proof.
  revert d; induction rs1 as [|r rs1 IH]; intros d; simpl.
  - now destruct (process_all d rs2).
  - destruct (process_reading d (sensor1 r) (sensor2 r) (at_time r))
      as [out d1].
    rewrite IH. destruct (process_all d1 rs1) as [outs d2]. simpl.
    reflexivity.
Qed.

Lemma process_all_cons (r : reading) (rs : list reading) (d : SnapDetector) :
  process_all d (r :: rs) =
  (fst (process_reading d (sensor1 r) (sensor2 r) (at_time r))
     :: fst (process_all
               (snd (process_reading d (sensor1 r) (sensor2 r) (at_time r)))
               rs),
   snd (process_all
          (snd (process_reading d (sensor1 r) (sensor2 r) (at_time r))) rs)).
Proof.
  cbn [process_all].
  destruct (process_reading d (sensor1 r) (sensor2 r) (at_time r))
    as [out d1].
  cbn [fst snd]. destruct (process_all d1 rs); reflexivity.
Qed.

(** A reading above the threshold on an armed gate is a snap: nothing is
    returned, the count grows by one and the snap time is the call's. *)
Lemma process_spike (th : Z) (w : Q) (c : Z) (p : option Q) (r : reading) :
  th < diff_of r -> 0 <= c ->
  process_reading (mkSnapDetector th w true c p)
                  (sensor1 r) (sensor2 r) (at_time r)
  = (None, mkSnapDetector th w false (c + 1) (Some (at_time r))).
Proof.
  unfold diff_of. intros Hd Hc.
  unfold process_reading, _detect_edge. simpl.
  replace (sensor2 r - sensor1 r >? th) with true
    by (symmetry; apply Z.gtb_lt; lia).
  simpl. unfold set_burst. simpl.
  destruct (Z.eqb_spec c 0) as [->|_]; reflexivity.
Qed.

(** A reading below the threshold that comes no later than [w] after the
    last snap re-arms the gate and leaves the burst open. *)
Lemma process_quiet_early (th : Z) (w : Q) (v : bool) (c : Z) (t : Q)
    (r : reading) :
  diff_of r < th -> (at_time r - t <= w)%Q ->
  process_reading (mkSnapDetector th w v c (Some t))
                  (sensor1 r) (sensor2 r) (at_time r)
  = (None, mkSnapDetector th w true c (Some t)).
Proof.
  unfold diff_of. intros Hd Ht.
  unfold process_reading, _detect_edge. simpl.
  replace (sensor2 r - sensor1 r >? th) with false
    by (symmetry; rewrite Z.gtb_ltb; apply Z.ltb_ge; lia).
  replace (sensor2 r - sensor1 r <? th) with true
    by (symmetry; apply Z.ltb_lt; lia).
  apply Qlt_bool_false_iff in Ht.
  destruct v; simpl; rewrite Ht, andb_false_r; reflexivity.
Qed.

(** The first reading below the threshold that comes more than [w] after
    the last snap closes the burst and returns its count. *)
Lemma process_quiet_late (th : Z) (w : Q) (v : bool) (c : Z) (t : Q)
    (r : reading) :
  diff_of r < th -> 0 < c -> (w < at_time r - t)%Q ->
  process_reading (mkSnapDetector th w v c (Some t))
                  (sensor1 r) (sensor2 r) (at_time r)
  = (Some c, mkSnapDetector th w true 0 None).
Proof.
  unfold diff_of. intros Hd Hc Ht.
  unfold process_reading, _detect_edge. simpl.
  replace (sensor2 r - sensor1 r >? th) with false
    by (symmetry; rewrite Z.gtb_ltb; apply Z.ltb_ge; lia).
  replace (sensor2 r - sensor1 r <? th) with true
    by (symmetry; apply Z.ltb_lt; lia).
  apply Qlt_bool_iff in Ht.
  assert (Hpos : (c >? 0) = true) by (apply Z.gtb_lt; lia).
  destruct v; simpl; rewrite Ht, Hpos; reflexivity.
Qed.

(** With no burst open, readings below the threshold return nothing. *)
Lemma process_all_idle (th : Z) (w : Q) (rs : list reading) :
  Forall (fun r => diff_of r < th) rs ->
  process_all (mkSnapDetector th w true 0 None) rs
  = (repeat None (length rs), mkSnapDetector th w true 0 None).
Proof.
  induction 1 as [|r rs Hr _ IH]; simpl; [reflexivity|].
  unfold diff_of in Hr.
  unfold process_reading, _detect_edge. simpl.
  replace (sensor2 r - sensor1 r >? th) with false
    by (symmetry; rewrite Z.gtb_ltb; apply Z.ltb_ge; lia).
  rewrite andb_false_r. simpl.
  change (process_all {| _threshold := th; _time_window := w; _valid := true;
                         _snap_count := 0; _prev_snap_time := None |} rs)
    with (process_all (mkSnapDetector th w true 0 None) rs).
  now rewrite IH.
Qed.

Lemma process_all_quiet_early (th : Z) (w : Q) (c : Z) (t : Q)
    (rs : list reading) :
  forall v : bool,
    Forall (fun r => diff_of r < th) rs ->
    Forall (fun r => (at_time r - t <= w)%Q) rs ->
    process_all (mkSnapDetector th w v c (Some t)) rs
    = (repeat None (length rs),
       mkSnapDetector th w (match rs with [] => v | _ => true end)
                      c (Some t)).
Proof.
  induction rs as [|r rs IH]; intros v Hd Ht; simpl; [reflexivity|].
  inversion Hd; inversion Ht; subst.
  rewrite process_quiet_early by assumption.
  rewrite IH by assumption. now destruct rs.
Qed.

Lemma process_all_quiet_closing (th : Z) (w : Q) (c : Z) (t : Q)
    (rs : list reading) :
  forall v : bool,
    0 < c ->
    Forall (fun r => diff_of r < th) rs ->
    Exists (fun r => (w < at_time r - t)%Q) rs ->
    exists before after : nat,
      fst (process_all (mkSnapDetector th w v c (Some t)) rs)
      = repeat None before ++ Some c :: repeat None after.
Proof.
  induction rs as [|r rs IH]; intros v Hc Hd Hlate.
  - inversion Hlate.
  - inversion Hd as [|? ? Hr Hrs]; subst. simpl.
    destruct (Qlt_le_dec w (at_time r - t)) as [Hnow|Hnot].
    + rewrite process_quiet_late by assumption.
      rewrite process_all_idle by assumption.
      exists 0%nat, (length rs). reflexivity.
    + rewrite process_quiet_early by assumption.
      assert (Hlate' : Exists (fun r => (w < at_time r - t)%Q) rs).
      { inversion Hlate as [? ? Hh|? ? Ht]; subst; [|exact Ht].
        exfalso. apply (Qlt_irrefl w).
        eapply Qlt_le_trans; eassumption. }
      destruct (IH true Hc Hrs Hlate') as (a & b & Hab).
      destruct (process_all (mkSnapDetector th w true c (Some t)) rs)
        as [outs d'].
      simpl in *. exists (S a), b. simpl. now rewrite Hab.
Qed.

Lemma nondecreasing_by_tail {A : Type} (stamp : A -> Q) (a : A)
    (l : list A) :
  nondecreasing_by stamp (a :: l) -> nondecreasing_by stamp l.
Proof. destruct l; simpl; tauto. Qed.

Lemma nondecreasing_by_app_r {A : Type} (stamp : A -> Q) (l1 l2 : list A) :
  nondecreasing_by stamp (l1 ++ l2) -> nondecreasing_by stamp l2.
Proof.
  induction l1 as [|a l1 IH]; simpl app; [tauto|].
  intros H. apply IH. eapply nondecreasing_by_tail; eassumption.
Qed.

Lemma nondecreasing_by_app_l {A : Type} (stamp : A -> Q) (l1 l2 : list A) :
  nondecreasing_by stamp (l1 ++ l2) -> nondecreasing_by stamp l1.
Proof.
  induction l1 as [|a l1 IH]; [simpl; tauto|].
  intros H. pose proof (nondecreasing_by_tail _ _ _ H) as Ht.
  specialize (IH Ht).
  destruct l1 as [|b l1]; [exact I|].
  simpl in H |- *. tauto.
Qed.

(** In a sequence that never goes backwards, what comes before an element
    is not later than it. *)
Lemma nondecreasing_by_before {A : Type} (stamp : A -> Q) (l1 : list A)
    (b : A) (l2 : list A) :
  nondecreasing_by stamp (l1 ++ b :: l2) ->
  Forall (fun a => (stamp a <= stamp b)%Q) l1.
Proof.
  induction l1 as [|a l1 IH]; intros H; constructor.
  - destruct l1 as [|a' l1]; simpl in H; [tauto|].
    destruct H as [Hle Hrest].
    specialize (IH Hrest). inversion IH; subst.
    eapply Qle_trans; eassumption.
  - apply IH. eapply nondecreasing_by_tail; exact H.
Qed.

Lemma last_cons_shift {A : Type} (ps : list A) (q p : A) :
  last (q :: ps) p = last ps q.
Proof.
  revert q p; induction ps as [|r ps IH]; intros q p; [reflexivity|].
  change (last (q :: r :: ps) p) with (last (r :: ps) p).
  now rewrite (IH r p), (IH r q).
Qed.

(** The burst lemma from any armed state: [c] snaps already counted. *)
Lemma burst_from (th : Z) (w : Q) (ps : list pulse) :
  forall (p : pulse) (c : Z) (prev : option Q),
    0 <= c ->
    Forall (is_pulse th) (p :: ps) ->
    chronological (burst_readings (p :: ps)) ->
    gaps_below w (p :: ps) ->
    closes_after w (last ps p) ->
    exists before after : nat,
      fst (process_all (mkSnapDetector th w true c prev)
                       (burst_readings (p :: ps)))
      = repeat None before
        ++ Some (c + Z.of_nat (length (p :: ps))) :: repeat None after.
Proof.
  induction ps as [|q ps IH]; intros p c prev Hc Hshape Hchron Hgaps Hclose.
  - inversion Hshape as [|? ? (Hspike & _ & Hquiet) _]; subst.
    unfold burst_readings. simpl. rewrite app_nil_r.
    rewrite process_spike by assumption.
    destruct (process_all_quiet_closing th w (c + 1) (at_time (spike p))
                (quiet p) false ltac:(lia) Hquiet Hclose) as (a & b & Hab).
    destruct (process_all _ (quiet p)) as [outs d']. simpl in *.
    exists (S a), b. simpl. rewrite Hab.
    replace (c + 1) with (c + Z.of_nat (length [p])) by (simpl; lia).
    reflexivity.
  - inversion Hshape as [|? ? (Hspike & Hne & Hquiet) Hrest]; subst.
    change (burst_readings (p :: q :: ps))
      with (spike p :: quiet p ++ burst_readings (q :: ps)) in *.
    destruct Hgaps as [Hgap Hgaps].
    rewrite last_cons_shift in Hclose.
    pose proof (nondecreasing_by_tail _ _ _ Hchron) as Hchron1.
    assert (Hearly : Forall (fun r => (at_time r - at_time (spike p) <= w)%Q)
                            (quiet p)).
    { change (burst_readings (q :: ps))
        with (spike q :: quiet q ++ burst_readings ps) in Hchron1.
      pose proof (nondecreasing_by_before _ _ _ _ Hchron1) as Hle.
      eapply Forall_impl; [|exact Hle].
      intros r Hr. simpl in Hr. lra. }
    rewrite process_all_cons, process_spike by assumption.
    cbn [fst snd].
    rewrite process_all_app, process_all_quiet_early by assumption.
    replace (match quiet p with [] => false | _ :: _ => true end) with true
      by (destruct (quiet p); [contradiction|reflexivity]).
    cbn [fst snd].
    destruct (IH q (c + 1) (Some (at_time (spike p))) ltac:(lia) Hrest
                 (nondecreasing_by_app_r _ _ _ Hchron1) Hgaps Hclose)
      as (a & b & Hab).
    rewrite Hab.
    exists (S (length (quiet p) + a)), b.
    replace (c + 1 + Z.of_nat (length (q :: ps)))
      with (c + Z.of_nat (length (p :: q :: ps)))
      by (simpl length; lia).
    cbn [repeat]. rewrite repeat_app, <- app_comm_cons, <- app_assoc.
    reflexivity.
Qed.

(** C5.  A fresh detector fed N spikes, each followed by readings below
    the threshold, consecutive spikes less than a window apart and the
    readings after the last spike reaching beyond the window, returns the
    count N from exactly one call and nothing from every other call. *)
Theorem burst_emits_count_once (config : GestureConfig) (p : pulse)
    (ps : list pulse) :
  Forall (is_pulse (snap_threshold config)) (p :: ps) ->
  chronological (burst_readings (p :: ps)) ->
  gaps_below (snap_time_window config) (p :: ps) ->
  closes_after (snap_time_window config) (last ps p) ->
  exists before after : nat,
    fst (process_all (SnapDetector_init config) (burst_readings (p :: ps)))
    = repeat None before
      ++ Some (Z.of_nat (length (p :: ps))) :: repeat None after.
Proof.
  intros Hshape Hchron Hgaps Hclose.
  exact (burst_from _ _ ps p 0 None (Z.le_refl 0) Hshape Hchron Hgaps Hclose).
Qed.

(** Two snaps 0.3 s apart with the default threshold and window: the count
    2 comes out of the fifth call, the first one 0.7 s past the last snap. *)
Example two_snaps_run :
  fst (process_all (SnapDetector_init (mkGestureConfig 50000 (7 # 10)))
         [mkReading 0 60000 0; mkReading 0 10 (1 # 10);
          mkReading 0 60000 (3 # 10); mkReading 0 10 (4 # 10);
          mkReading 0 10 (11 # 10); mkReading 0 10 (12 # 10)])
  = [None; None; None; None; Some 2; None].
Proof. reflexivity. Qed.

Lemma burst_emits_count_once_witness :
  let config := mkGestureConfig 50000 (7 # 10) in
  let p := mkPulse (mkReading 0 60000 0) [mkReading 0 10 (1 # 10)] in
  let q := mkPulse (mkReading 0 60000 (3 # 10))
                   [mkReading 0 10 (4 # 10); mkReading 0 10 (11 # 10)] in
  Forall (is_pulse (snap_threshold config)) [p; q]
  /\ chronological (burst_readings [p; q])
  /\ gaps_below (snap_time_window config) [p; q]
  /\ closes_after (snap_time_window config) (last [q] p)
  /\ exists before after : nat,
       fst (process_all (SnapDetector_init config) (burst_readings [p; q]))
       = repeat None before ++ Some 2 :: repeat None after.
Proof.
  intros config p q.
  assert (Hshape : Forall (is_pulse (snap_threshold config)) [p; q]).
  { repeat constructor; simpl; try lia; discriminate. }
  assert (Hchron : chronological (burst_readings [p; q])).
  { simpl. repeat split; discriminate. }
  assert (Hgaps : gaps_below (snap_time_window config) [p; q]).
  { simpl. split; [reflexivity|exact I]. }
  assert (Hclose : closes_after (snap_time_window config) (last [q] p)).
  { apply Exists_cons_tl, Exists_cons_hd. reflexivity. }
  refine (conj Hshape (conj Hchron (conj Hgaps (conj Hclose _)))).
  exact (burst_emits_count_once config p [q] Hshape Hchron Hgaps Hclose).
Defined.

(** ** PID integral *)

Import PID.

Ltac py_cmp :=
  repeat match goal with
         | |- context [Qlt_bool ?a ?b] =>
             let H := fresh "Hcmp" in
             destruct (Qlt_bool a b) eqn:H;
             [apply Qlt_bool_iff in H | apply Qlt_bool_false_iff in H]
         | H0 : context [Qlt_bool ?a ?b] |- _ =>
             let H := fresh "Hcmp" in
             destruct (Qlt_bool a b) eqn:H;
             [apply Qlt_bool_iff in H | apply Qlt_bool_false_iff in H]
         end.

Ltac abs_cases :=
  repeat match goal with
         | |- context [Qabs ?x] =>
             let H := fresh "Habs" in
             pattern (Qabs x); apply Qabs_case; intros H
         | H : context [Qabs ?x] |- _ =>
             let H' := fresh "Habs" in
             revert H; pattern (Qabs x); apply Qabs_case; intros H' H
         end.

Lemma same_side_product (nonneg : bool) (e dt : Q) :
  same_side nonneg e -> (0 <= dt)%Q -> same_side nonneg (e * dt).
Proof.
  destruct nonneg; unfold same_side; intros He Hdt.
  - now apply Qmult_le_0_compat.
  - assert (H : (0 <= (- e) * dt)%Q) by (apply Qmult_le_0_compat; lra).
    lra.
Qed.

(** One accumulation step with an error on the side of the earlier ones
    and a non-negative time step: the magnitude does not shrink and the
    accumulator stays as [integral_ok] describes. *)
Lemma next_integral_grows (nonneg : bool) (st : PIDController) (e dt : Q) :
  integral_ok nonneg st -> same_side nonneg e -> (0 <= dt)%Q ->
  (Qabs (_integral st) <= Qabs (next_integral st e dt))%Q
  /\ match integral_limit st with
     | None => same_side nonneg (next_integral st e dt)
     | Some limit =>
         (Qabs (next_integral st e dt) <= Qabs limit)%Q
         /\ ((0 <= limit)%Q -> same_side nonneg (next_integral st e dt))
     end.
Proof.
  intros Hok He Hdt.
  pose proof (same_side_product nonneg e dt He Hdt) as Hp.
  unfold integral_ok, next_integral in *.
  set (p := (e * dt)%Q) in *. clearbody p.
  destruct (integral_limit st) as [limit|];
    destruct nonneg; unfold same_side in *; unfold py_max, py_min.
  - destruct Hok as [Hb Hs].
    destruct (Qlt_le_dec limit 0) as [Hneg|Hpos];
      [clear Hs | specialize (Hs Hpos)];
      py_cmp; abs_cases; repeat split; intros; lra.
  - destruct Hok as [Hb Hs].
    destruct (Qlt_le_dec limit 0) as [Hneg|Hpos];
      [clear Hs | specialize (Hs Hpos)];
      py_cmp; abs_cases; repeat split; intros; lra.
  - abs_cases; split; lra.
  - abs_cases; split; lra.
Qed.

Lemma step_integral (st : PIDController) (c : call) :
  _integral (step st c)
  = next_integral st (call_error c)
                  (effective_dt st (call_now c) (call_dt c)).
Proof. unfold step, update. now destruct (output_limits st). Qed.

Lemma step_integral_limit (st : PIDController) (c : call) :
  integral_limit (step st c) = integral_limit st.
Proof. unfold step, update. now destruct (output_limits st). Qed.

Lemma step_last_time (st : PIDController) (c : call) :
  _last_time (step st c) = Some (call_now c).
Proof. unfold step, update. now destruct (output_limits st). Qed.

Lemma run_snoc (st : PIDController) (calls : list call) (c : call) :
  run st (calls ++ [c]) = step (run st calls) c.
Proof. unfold run. now rewrite fold_left_app. Qed.

Lemma dts_nonneg_app (calls1 calls2 : list call) :
  forall st : PIDController,
    dts_nonneg st (calls1 ++ calls2) <->
    dts_nonneg st calls1 /\ dts_nonneg (run st calls1) calls2.
Proof.
  induction calls1 as [|c calls1 IH]; intros st; simpl; [tauto|].
  rewrite IH. unfold run. tauto.
Qed.

Lemma run_invariant (nonneg : bool) (cfg : PIDConfig) (limits : Q * Q)
    (ilimit : option Q) (calls : list call) :
  Forall (fun c => same_side nonneg (call_error c)) calls ->
  dts_nonneg (PIDController_init cfg limits ilimit) calls ->
  integral_ok nonneg (run (PIDController_init cfg limits ilimit) calls)
  /\ integral_limit (run (PIDController_init cfg limits ilimit) calls)
     = ilimit.
Proof.
  induction calls as [|c calls IH] using rev_ind; intros Hsign Hdt.
  - simpl. split; [|reflexivity].
    unfold integral_ok. simpl.
    destruct ilimit as [limit|]; destruct nonneg; unfold same_side;
      repeat split; intros; try lra; apply Qabs_nonneg.
  - apply Forall_app in Hsign as [Hsign0 Hc].
    inversion Hc as [|? ? He _]; subst.
    apply dts_nonneg_app in Hdt as [Hdt0 [Hstep _]].
    destruct (IH Hsign0 Hdt0) as [Hok Hlim].
    rewrite run_snoc.
    remember (run (PIDController_init cfg limits ilimit) calls) as st0.
    destruct (next_integral_grows nonneg st0 _ _ Hok He Hstep) as [_ Hnext].
    split.
    + unfold integral_ok.
      rewrite step_integral_limit, step_integral. exact Hnext.
    + now rewrite step_integral_limit.
Qed.

(** C7.  From a fresh controller, along calls whose errors have one sign
    and whose time step is never negative, each call leaves the magnitude
    of the integral at least as large as it found it; with a limit
    configured the magnitude never exceeds the limit, and once it equals
    the limit it equals it after the next call too. *)
Theorem integral_monotone_until_clamped (cfg : PIDConfig) (limits : Q * Q)
    (ilimit : option Q) (calls : list call) (c : call) :
  constant_sign (calls ++ [c]) ->
  dts_nonneg (PIDController_init cfg limits ilimit) (calls ++ [c]) ->
  let before := run (PIDController_init cfg limits ilimit) calls in
  let after := step before c in
  (Qabs (_integral before) <= Qabs (_integral after))%Q
  /\ forall limit : Q,
       ilimit = Some limit ->
       (Qabs (_integral after) <= Qabs limit)%Q
       /\ (Qabs (_integral before) == Qabs limit ->
           Qabs (_integral after) == Qabs limit).
Proof.
  intros Hsign Hdt before after.
  assert (Hside : exists nonneg : bool,
             Forall (fun c => same_side nonneg (call_error c))
                    (calls ++ [c])).
  { destruct Hsign as [H|H]; [exists true|exists false]; exact H. }
  destruct Hside as [nonneg Hside].
  apply Forall_app in Hside as [Hside0 Hc].
  inversion Hc as [|? ? He _]; subst.
  apply dts_nonneg_app in Hdt as [Hdt0 [Hstep _]].
  destruct (run_invariant nonneg cfg limits ilimit calls Hside0 Hdt0)
    as [Hok Hlim].
  fold before in Hok, Hlim, Hstep.
  destruct (next_integral_grows nonneg before _ _ Hok He Hstep)
    as [Hgrow Hnext].
  subst after. rewrite step_integral.
  split; [exact Hgrow|].
  intros limit ->. rewrite Hlim in Hnext. destruct Hnext as [Hbound _].
  split; [exact Hbound|].
  intros Heq. apply Qle_antisym; [exact Hbound|].
  rewrite <- Heq. exact Hgrow.
Qed.

(** The time step of a call is not negative when its [dt] argument is
    not and the clock has not gone backwards since the call remembered. *)
Lemma effective_dt_nonneg (st : PIDController) (calls : list call)
    (c : call) :
  remembers st calls ->
  given_dt_nonneg (calls ++ [c]) ->
  clock_monotonic (calls ++ [c]) ->
  (0 <= effective_dt st (call_now c) (call_dt c))%Q.
Proof.
  intros Hrem Hdt Hclock. unfold effective_dt.
  destruct (call_dt c) as [d|] eqn:Hd.
  - apply Forall_app in Hdt as [_ Hc]. inversion Hc as [|? ? Hd' _]; subst.
    now rewrite Hd in Hd'.
  - destruct (_last_time st) as [last|] eqn:Hlast; [|lra].
    destruct (Hrem last Hlast) as (c' & Hin & ->).
    pose proof (nondecreasing_by_before _ _ _ _ Hclock) as Hle.
    rewrite Forall_forall in Hle. specialize (Hle c' Hin). simpl in Hle.
    lra.
Qed.

(** With [time.monotonic()] as the clock and no negative [dt] argument,
    no call of a sequence has a negative time step. *)
Lemma monotonic_clock_dts_nonneg (cfg : PIDConfig) (limits : Q * Q)
    (ilimit : option Q) (calls : list call) :
  given_dt_nonneg calls ->
  clock_monotonic calls ->
  dts_nonneg (PIDController_init cfg limits ilimit) calls
  /\ remembers (run (PIDController_init cfg limits ilimit) calls) calls.
Proof.
  induction calls as [|c calls IH] using rev_ind; intros Hdt Hclock.
  - split; [exact I|]. intros last Hlast. discriminate Hlast.
  - pose proof Hdt as Hdt'. apply Forall_app in Hdt' as [Hdt0 _].
    destruct (IH Hdt0 (nondecreasing_by_app_l _ _ _ Hclock)) as [Hnn Hrem].
    split.
    + apply dts_nonneg_app. split; [exact Hnn|].
      split; [|exact I].
      exact (effective_dt_nonneg _ _ _ Hrem Hdt Hclock).
    + intros last Hlast. rewrite run_snoc, step_last_time in Hlast.
      inversion Hlast; subst. exists c. split; [|reflexivity].
      apply in_or_app. right. now left.
Qed.

Example integral_reaches_limit :
  let init := PIDController_init (mkPIDConfig (2 # 10) (4 # 100) (5 # 1000))
                                 (- (100), 100)%Q (Some 1%Q) in
  let first := mkCall 0 10 None in
  let second := mkCall (1 # 20) 10 None in
  let third := mkCall (3 # 20) 10 None in
  (_integral (run init [first]) == 0)%Q
  /\ (_integral (run init [first; second]) == 1 # 2)%Q
  /\ (_integral (run init [first; second; third]) == 1)%Q.
Proof. repeat split. Qed.

Lemma integral_monotone_until_clamped_witness :
  let init := PIDController_init (mkPIDConfig (2 # 10) (4 # 100) (5 # 1000))
                                 (- (100), 100)%Q (Some 1%Q) in
  let calls := [mkCall 0 10 None; mkCall (1 # 20) 10 None] in
  let c := mkCall (3 # 20) 10 (Some (1 # 10)) in
  constant_sign (calls ++ [c])
  /\ dts_nonneg init (calls ++ [c])
  /\ (Qabs (_integral (run init calls))
      <= Qabs (_integral (step (run init calls) c)))%Q.
Proof.
  intros init calls c.
  assert (Hsign : constant_sign (calls ++ [c])).
  { left. repeat constructor; discriminate. }
  assert (Hdt : dts_nonneg init (calls ++ [c])).
  { simpl. repeat split; discriminate. }
  refine (conj Hsign (conj Hdt _)).
  exact (proj1 (integral_monotone_until_clamped _ _ _ calls c Hsign Hdt)).
Defined.

(** ** Face tracker: history *)

Import Tracker.

Lemma compute_control_lost (t : FaceTracker) (height : Z) (ny nv : Q) :
  compute_control t None height ny nv = _handle_lost_face t.
Proof. reflexivity. Qed.

Lemma handle_lost_state (t : FaceTracker) :
  snd (_handle_lost_face t)
  = set_history t (deque_append (_center_history t) (0, 0)).
Proof.
  unfold _handle_lost_face. cbv zeta.
  destruct (count_lost _ >? _); reflexivity.
Qed.

(** Every call leaves the tracker's configuration alone and appends its
    entry to the history. *)
Lemma step_frame (t : FaceTracker) (c : cycle) :
  let t' := snd (step t c) in
  _center_history t' = deque_append (_center_history t) (history_entry c)
  /\ _config t' = _config t
  /\ _center_history_size t' = _center_history_size t.
Proof.
  unfold step, history_entry. destruct (cycle_face c) as [face|].
  - unfold compute_control. cbv zeta.
    destruct (center_x face <? _frame_w t / 2);
      destruct (PID.update _ (cycle_now_yaw c) _ None) as [yaw_out yaw_pid];
      destruct (PID.update _ (cycle_now_vertical c) _ None)
        as [vertical_raw vertical_pid];
      repeat split.
  - rewrite compute_control_lost, handle_lost_state. repeat split.
Qed.

Lemma deque_append_maxlen (d : deque) (x : Z * Z) :
  maxlen (deque_append d x) = maxlen d.
Proof.
  unfold deque_append. now destruct (maxlen d <? length (items d ++ [x]))%nat.
Qed.

Lemma deque_append_bound (d : deque) (x : Z * Z) :
  (length (items d) <= maxlen d)%nat ->
  (length (items (deque_append d x)) <= maxlen d)%nat.
Proof.
  intros Hlen. unfold deque_append.
  destruct (Nat.ltb_spec (maxlen d) (length (items d ++ [x]))) as [Hfull|Hroom];
    simpl.
  - rewrite length_app in Hfull. simpl in Hfull.
    destruct (items d ++ [x]) as [|y l] eqn:Hl; simpl; [lia|].
    apply (f_equal (@length _)) in Hl. rewrite length_app in Hl.
    simpl in Hl. lia.
  - exact Hroom.
Qed.

Lemma run_history_bound (cs : list cycle) :
  forall t : FaceTracker,
    (length (items (_center_history t)) <= maxlen (_center_history t))%nat ->
    let t' := snd (run t cs) in
    (length (items (_center_history t')) <= maxlen (_center_history t'))%nat
    /\ maxlen (_center_history t') = maxlen (_center_history t).
Proof.
  induction cs as [|c cs IH]; intros t Hlen; [simpl; split; [exact Hlen|reflexivity]|].
  destruct (step_frame t c) as (Hhist & _ & _).
  cbn [run]. destruct (step t c) as [out t1]. cbn [snd] in Hhist.
  assert (Hlen1 : (length (items (_center_history t1))
                   <= maxlen (_center_history t1))%nat).
  { rewrite Hhist, deque_append_maxlen. now apply deque_append_bound. }
  specialize (IH t1 Hlen1). cbv zeta in IH |- *.
  destruct (run t1 cs) as [outs t2]. cbn [snd] in IH |- *.
  destruct IH as [Hb Hm]. split; [exact Hb|].
  now rewrite Hm, Hhist, deque_append_maxlen.
Qed.

Lemma FaceTracker_init_history (cfg : TrackingConfig) (dcfg : DroneConfig)
    (t : FaceTracker) :
  FaceTracker_init cfg dcfg = Ok t ->
  items (_center_history t) = []
  /\ Z.of_nat (maxlen (_center_history t)) = frame_width dcfg.
Proof.
  unfold FaceTracker_init, deque_init.
  destruct (Z.ltb_spec (frame_width dcfg) 0) as [Hneg|Hpos];
    [discriminate|].
  intros H. inversion H; subst; simpl. split; [reflexivity|lia].
Qed.

(** C2, on the code.  After any sequence of [compute_control] calls on a
    newly built tracker the history holds at most [frame_width] entries,
    the [maxlen] of its deque; each call appends its entry, the observed
    center or the [(0, 0)] sentinel, to that deque. *)
Theorem history_bounded_by_frame_width (cfg : TrackingConfig)
    (dcfg : DroneConfig) (t0 : FaceTracker) (cs : list cycle) :
  FaceTracker_init cfg dcfg = Ok t0 ->
  let t := snd (run t0 cs) in
  Z.of_nat (length (items (_center_history t))) <= frame_width dcfg
  /\ forall c : cycle,
       _center_history (snd (step t c))
       = deque_append (_center_history t) (history_entry c).
Proof.
  intros Hinit t.
  destruct (FaceTracker_init_history _ _ _ Hinit) as [Hempty Hmax].
  assert (Hlen0 : (length (items (_center_history t0))
                   <= maxlen (_center_history t0))%nat)
    by (rewrite Hempty; simpl; lia).
  destruct (run_history_bound cs t0 Hlen0) as [Hb Hm]. fold t in Hb, Hm.
  split; [lia|].
  intros c. apply step_frame.
Qed.

Lemma history_bounded_by_frame_width_witness :
  exists t0 : FaceTracker,
    FaceTracker_init default_tracking_config default_drone_config = Ok t0
    /\ Z.of_nat (length (items (_center_history
                                  (snd (run t0 [lost_cycle 100 0])))))
       <= frame_width default_drone_config.
Proof.
  eexists. split; [reflexivity|].
  refine (proj1 (history_bounded_by_frame_width default_tracking_config
                   default_drone_config _ [lost_cycle 100 0] _)).
  reflexivity.
Defined.

(** C2, as stated, fails: with the default configuration, twenty-one
    calls without an observation leave twenty-one entries in the
    history. *)
Lemma history_exceeds_twenty :
  exists t0 : FaceTracker,
    FaceTracker_init default_tracking_config default_drone_config = Ok t0
    /\ ~ (length (items (_center_history
                           (snd (run t0 (repeat (lost_cycle 100 0) 21)))))
          <= 20)%nat.
Proof.
  eexists. split; [reflexivity|].
  change (~ (21 <= 20)%nat). lia.
Qed.

(** ** Face tracker: search after a loss *)

Lemma step_lost (t : FaceTracker) (c : cycle) :
  cycle_face c = None -> step t c = _handle_lost_face t.
Proof. unfold step. intros ->. apply compute_control_lost. Qed.

Lemma run_lost (cs : list cycle) :
  forall t : FaceTracker,
    Forall (fun c => cycle_face c = None) cs ->
    snd (run t cs)
    = set_history t (Nat.iter (length cs) append_lost (_center_history t)).
Proof.
  induction cs as [|c cs IH]; intros t Hlost.
  - now destruct t.
  - inversion Hlost as [|? ? Hc Hcs]; subst.
    cbn [run]. rewrite (step_lost _ _ Hc).
    pose proof (handle_lost_state t) as Hst.
    destruct (_handle_lost_face t) as [out t1]. cbn [snd] in Hst. subst t1.
    specialize (IH (set_history t (deque_append (_center_history t) (0, 0)))
                   Hcs).
    destruct (run _ cs) as [outs t2]. cbn [snd] in IH |- *.
    rewrite IH. cbn [length]. rewrite Nat.iter_succ_r. reflexivity.
Qed.

Lemma iter_append_lost_maxlen (k : nat) (d : deque) :
  maxlen (Nat.iter k append_lost d) = maxlen d.
Proof.
  induction k as [|k IH]; [reflexivity|].
  simpl. unfold append_lost at 1. now rewrite deque_append_maxlen.
Qed.

(** As long as the deque has room for them, the sentinels appended last
    are all at its right end. *)
Lemma iter_append_lost_suffix (k : nat) (d : deque) :
  (k <= maxlen d)%nat ->
  exists pre : list (Z * Z),
    items (Nat.iter k append_lost d) = pre ++ repeat (0, 0) k.
Proof.
  induction k as [|k IH]; intros Hk.
  - exists (items d). simpl. now rewrite app_nil_r.
  - destruct (IH ltac:(lia)) as [pre Hpre].
    pose proof (iter_append_lost_maxlen k d) as Hmax.
    cbn [Nat.iter nat_rect]. change (nat_rect _ d (fun _ => append_lost) k)
      with (Nat.iter k append_lost d).
    unfold append_lost at 1. unfold deque_append.
    rewrite Hpre, Hmax, <- app_assoc.
    replace (repeat (0, 0) k ++ [(0, 0)]) with (repeat (0, 0) (S k))
      by (rewrite <- repeat_cons; reflexivity).
    destruct (Nat.ltb_spec (maxlen d) (length (pre ++ repeat (0, 0) (S k))))
      as [Hfull|Hroom]; cbn [items].
    + destruct pre as [|a pre].
      * rewrite length_app, repeat_length in Hfull. simpl in Hfull. lia.
      * exists pre. reflexivity.
    + exists pre. reflexivity.
Qed.

Lemma count_lost_app (l1 l2 : list (Z * Z)) :
  count_lost (l1 ++ l2) = count_lost l1 + count_lost l2.
Proof.
  induction l1 as [|[x y] l1 IH]; cbn [count_lost app]; [reflexivity|].
  destruct ((x =? 0) && (y =? 0)); lia.
Qed.

Lemma count_lost_nonneg (l : list (Z * Z)) : 0 <= count_lost l.
Proof.
  induction l as [|[x y] l IH]; cbn [count_lost]; [lia|].
  destruct ((x =? 0) && (y =? 0)); lia.
Qed.

Lemma count_lost_sentinels (k : nat) :
  count_lost (repeat (0, 0) k) = Z.of_nat k.
Proof. induction k as [|k IH]; [reflexivity|]. cbn [repeat count_lost]. simpl andb. lia. Qed.

(** The window of the last twenty entries keeps up to twenty trailing
    sentinels. *)
Lemma slice_from_keeps_suffix (pre suf : list (Z * Z)) :
  (length suf <= 20)%nat ->
  exists pre' : list (Z * Z),
    slice_from (- (20)) (pre ++ suf) = pre' ++ suf.
Proof.
  intros Hsuf. unfold slice_from.
  change (- (20) <? 0) with true. cbv iota.
  set (m := Z.to_nat (Z.max (- (20) + Z.of_nat (length (pre ++ suf))) 0)).
  assert (Hm : (m <= length pre)%nat).
  { subst m. rewrite length_app. lia. }
  exists (skipn m pre). rewrite skipn_app.
  replace (m - length pre)%nat with 0%nat by lia. reflexivity.
Qed.

(** After [lost_face_threshold] calls without an observation, the next
    such call rotates in place, provided the threshold is below the window
    of twenty entries and the deque holds more entries than the
    threshold. *)
Lemma search_after_losses (t : FaceTracker) (cs : list cycle) (c : cycle) :
  _center_history_size t = 20 ->
  0 <= lost_face_threshold (_config t) < 20 ->
  lost_face_threshold (_config t) < Z.of_nat (maxlen (_center_history t)) ->
  Forall (fun c => cycle_face c = None) (cs ++ [c]) ->
  Z.of_nat (length cs) = lost_face_threshold (_config t) ->
  fst (step (snd (run t cs)) c) = (0, 0, 0, search_yaw t).
Proof.
  intros Hsize Hth Hcap Hlost Hlen.
  apply Forall_app in Hlost as [Hcs Hc]. inversion Hc as [|? ? Hc' _]; subst.
  rewrite (step_lost _ _ Hc'), (run_lost _ _ Hcs).
  unfold _handle_lost_face. cbv zeta.
  destruct t as [cfg fw fh tx ty yp vp hist size dir].
  cbn [set_history _center_history _center_history_size _config
       _last_known_direction items] in *.
  subst size.
  change (deque_append (Nat.iter (length cs) append_lost hist) (0, 0))
    with (Nat.iter (S (length cs)) append_lost hist).
  destruct (iter_append_lost_suffix (S (length cs)) hist ltac:(lia))
    as [pre Hpre].
  rewrite Hpre.
  destruct (slice_from_keeps_suffix pre (repeat (0, 0) (S (length cs))))
    as [pre' Hslice]; [rewrite repeat_length; lia|].
  rewrite Hslice, count_lost_app, count_lost_sentinels.
  pose proof (count_lost_nonneg pre') as Hpos.
  replace (_ >? lost_face_threshold cfg) with true
    by (symmetry; apply Z.gtb_lt; lia).
  reflexivity.
Qed.

Example default_tracker_init :
  FaceTracker_init default_tracking_config default_drone_config
  = Ok default_tracker.
Proof. reflexivity. Qed.

(** C4, on the code.  With the loss threshold inside the twenty-entry
    window and below the capacity of the history, a tracker whose last
    known direction is ["+"] (right) answers the call that follows
    [lost_face_threshold] calls without an observation, itself without
    one, with yaw [+search_rotation_speed] and the other three speeds 0. *)
Theorem search_rotates_right (t : FaceTracker) (cs : list cycle)
    (c : cycle) :
  _center_history_size t = 20 ->
  _last_known_direction t = "+"%string ->
  0 <= lost_face_threshold (_config t) < 20 ->
  lost_face_threshold (_config t) < Z.of_nat (maxlen (_center_history t)) ->
  Forall (fun c => cycle_face c = None) (cs ++ [c]) ->
  Z.of_nat (length cs) = lost_face_threshold (_config t) ->
  fst (step (snd (run t cs)) c)
  = (0, 0, 0, search_rotation_speed (_config t)).
Proof.
  intros Hsize Hdir Hth Hcap Hlost Hlen.
  rewrite (search_after_losses t cs c Hsize Hth Hcap Hlost Hlen).
  unfold search_yaw. now rewrite Hdir.
Qed.

Lemma search_rotates_right_witness :
  let t := default_tracker in
  let cs := repeat (lost_cycle 100 0) 15 in
  let c := lost_cycle 100 0 in
  _center_history_size t = 20
  /\ _last_known_direction t = "+"%string
  /\ 0 <= lost_face_threshold (_config t) < 20
  /\ lost_face_threshold (_config t) < Z.of_nat (maxlen (_center_history t))
  /\ Forall (fun c => cycle_face c = None) (cs ++ [c])
  /\ Z.of_nat (length cs) = lost_face_threshold (_config t)
  /\ fst (step (snd (run t cs)) c) = (0, 0, 0, 40).
Proof.
  intros t cs c.
  assert (Hsize : _center_history_size t = 20) by reflexivity.
  assert (Hdir : _last_known_direction t = "+"%string) by reflexivity.
  assert (Hth : 0 <= lost_face_threshold (_config t) < 20)
    by (simpl; lia).
  assert (Hcap : lost_face_threshold (_config t)
                 < Z.of_nat (maxlen (_center_history t)))
    by (simpl; lia).
  assert (Hlost : Forall (fun c => cycle_face c = None) (cs ++ [c]))
    by (repeat constructor).
  assert (Hlen : Z.of_nat (length cs) = lost_face_threshold (_config t))
    by reflexivity.
  refine (conj Hsize (conj Hdir (conj Hth (conj Hcap
            (conj Hlost (conj Hlen _)))))).
  exact (search_rotates_right t cs c Hsize Hdir Hth Hcap Hlost Hlen).
Defined.

(** C4, as stated, fails: with [lost_face_threshold] set to 20 a tracker
    whose last known direction is ["+"] still holds all four speeds at 0
    on the twenty-first consecutive call without an observation. *)
Lemma no_search_at_threshold_twenty :
  exists t0 : FaceTracker,
    FaceTracker_init threshold_twenty_config default_drone_config = Ok t0
    /\ _last_known_direction t0 = "+"%string
    /\ Z.of_nat (length (repeat (lost_cycle 100 0) 20) + 1)
       = lost_face_threshold (_config t0) + 1
    /\ fst (step (snd (run t0 (repeat (lost_cycle 100 0) 20)))
                 (lost_cycle 100 0))
       = (0, 0, 0, 0).
Proof. eexists. repeat split. Qed.

(** ** Face tracker: altitude *)

Import RunTracker.

(** C9.  [compute_control] returns the same speeds and leaves the same
    tracker whatever altitude the drone reports; the descent that replaces
    the command above [height_limit] is made by the loop of [main]. *)
Theorem control_independent_of_altitude (t : FaceTracker)
    (face : option FaceInfo) (h1 h2 : Z) (ny nv : Q)
    (dcfg : DroneConfig) (height_main : Z) :
  compute_control t face h1 ny nv = compute_control t face h2 ny nv
  /\ control_iteration dcfg t (mkCycle face h1 ny nv) height_main
     = (if height_main >? height_limit dcfg
        then (0, 0, -10, 0)
        else fst (compute_control t face h1 ny nv),
        snd (compute_control t face h1 ny nv)).
Proof.
  split; [reflexivity|].
  unfold control_iteration, step. cbn [cycle_face cycle_height
    cycle_now_yaw cycle_now_vertical].
  destruct (compute_control t face h1 ny nv) as [[[[lr fb] ud] yaw] t'].
  now destruct (height_main >? height_limit dcfg).
Qed.

(** ** Face tracker: reset *)

Lemma reset_frame (t : FaceTracker) :
  _last_known_direction (reset t) = _last_known_direction t
  /\ _config (reset t) = _config t
  /\ _center_history_size (reset t) = _center_history_size t
  /\ maxlen (_center_history (reset t)) = maxlen (_center_history t).
Proof. repeat split. Qed.

(** C10.  [reset] resets both PID controllers and empties the history
    and does not touch the last known direction; a search that starts
    after the reset turns to the side recorded before it. *)
Theorem reset_keeps_direction (t : FaceTracker) :
  _last_known_direction (reset t) = _last_known_direction t
  /\ _yaw_pid (reset t) = PID.reset (_yaw_pid t)
  /\ _vertical_pid (reset t) = PID.reset (_vertical_pid t)
  /\ items (_center_history (reset t)) = []
  /\ forall (cs : list cycle) (c : cycle),
       _center_history_size t = 20 ->
       0 <= lost_face_threshold (_config t) < 20 ->
       lost_face_threshold (_config t)
         < Z.of_nat (maxlen (_center_history t)) ->
       Forall (fun c => cycle_face c = None) (cs ++ [c]) ->
       Z.of_nat (length cs) = lost_face_threshold (_config t) ->
       fst (step (snd (run (reset t) cs)) c) = (0, 0, 0, search_yaw t).
Proof.
  repeat split.
  intros cs c Hsize Hth Hcap Hlost Hlen.
  exact (search_after_losses (reset t) cs c Hsize Hth Hcap Hlost Hlen).
Qed.

Lemma reset_keeps_direction_witness :
  let seen_left :=
    mkCycle (Some (mkFaceInfo 200 180 14500 (150, 130, 100, 145)))
            100 0 0 in
  let t := snd (step default_tracker seen_left) in
  let cs := repeat (lost_cycle 100 1) 15 in
  let c := lost_cycle 100 1 in
  _last_known_direction t = "-"%string
  /\ fst (step (snd (run (reset t) cs)) c) = (0, 0, 0, -40).
Proof.
  intros seen_left t cs c.
  split; [reflexivity|].
  refine (proj2 (proj2 (proj2 (proj2 (reset_keeps_direction t)))) cs c
            _ _ _ _ _).
  - reflexivity.
  - split; vm_compute; [discriminate|reflexivity].
  - vm_compute. reflexivity.
  - repeat constructor.
  - reflexivity.
Defined.

(** * Further properties *)

(** ** Command enum and channel *)

(** X1.  A snap count maps to a command exactly when it is the
    command's value. *)
Theorem from_snap_count_iff_value (n : Z) (c : Command) :
  from_snap_count n = Some c <-> n = value c.
Proof.
  unfold from_snap_count, Command_of_value. split.
  - destruct (Z.eqb_spec n 1) as [->|_];
      [|destruct (Z.eqb_spec n 2) as [->|_]];
      intros H; inversion H; reflexivity.
  - intros ->. now destruct c.
Qed.

Lemma from_snap_count_iff_value_witness :
  from_snap_count 2 = Some TAKE_PHOTO /\ 2 = value TAKE_PHOTO.
Proof.
  split; [|reflexivity].
  apply (proj2 (from_snap_count_iff_value 2 TAKE_PHOTO)). reflexivity.
Defined.

(** X2.  On a readable log, a read that follows a read with no write in
    between returns the empty list and leaves the cursor where the first
    read put it. *)
Theorem read_twice_is_empty (ch : CommandChannel) (d : disk)
    (all_snaps : list Z) :
  cache_path d = Some (Pickled all_snaps) ->
  read_new_commands (snd (read_new_commands ch d)) d
  = (Ok [], snd (read_new_commands ch d)).
Proof.
  intros Hd. rewrite (read_new_commands_recognized ch d _ Hd). cbn [snd].
  rewrite (read_new_commands_recognized _ d _ Hd). cbn [_read_index].
  rewrite skipn_all2 by lia. simpl. do 2 f_equal. lia.
Qed.

Lemma read_twice_is_empty_witness :
  let d := write_commands [2; 7; 1] no_files in
  cache_path d = Some (Pickled [2; 7; 1])
  /\ read_new_commands (snd (read_new_commands new_channel d)) d
     = (Ok [], snd (read_new_commands new_channel d)).
Proof.
  intros d.
  assert (Hd : cache_path d = Some (Pickled [2; 7; 1])) by reflexivity.
  split; [exact Hd|].
  exact (read_twice_is_empty new_channel d [2; 7; 1] Hd).
Defined.

(** X3.  The cursor never moves back, whatever the file holds; on a log
    that is not longer than the cursor (one the writer has started anew,
    for instance) the read returns the empty list and the cursor stays. *)
Theorem cursor_never_moves_back (ch : CommandChannel) (d : disk) :
  (_read_index ch <= _read_index (snd (read_new_commands ch d)))%nat
  /\ forall all_snaps : list Z,
       cache_path d = Some (Pickled all_snaps) ->
       (length all_snaps <= _read_index ch)%nat ->
       read_new_commands ch d = (Ok [], ch).
Proof.
  split.
  - destruct (cache_path d) as [[data|e]|] eqn:Hd.
    + rewrite (read_new_commands_recognized ch d _ Hd). simpl. lia.
    + unfold read_new_commands, load_cache. rewrite Hd.
      destruct e; simpl; lia.
    + unfold read_new_commands, load_cache. rewrite Hd. simpl. lia.
  - intros all_snaps Hd Hshort.
    rewrite (read_new_commands_recognized ch d _ Hd).
    rewrite skipn_all2 by lia. destruct ch as [c]. simpl in *.
    do 2 f_equal. lia.
Qed.

Lemma cursor_never_moves_back_witness :
  let d := initialize (write_commands [1; 2; 1] no_files) in
  cache_path d = Some (Pickled [])
  /\ (length (@nil Z) <= _read_index (mkChannel 3))%nat
  /\ read_new_commands (mkChannel 3) d = (Ok [], mkChannel 3).
Proof.
  intros d.
  assert (Hd : cache_path d = Some (Pickled [])) by reflexivity.
  assert (Hshort : (length (@nil Z) <= _read_index (mkChannel 3))%nat)
    by (simpl; lia).
  refine (conj Hd (conj Hshort _)).
  exact (proj2 (cursor_never_moves_back (mkChannel 3) d) [] Hd Hshort).
Defined.

(** ** Sensing loop and delivery *)

Import RunGesture Processes.

Lemma recognized_app (l1 l2 : list Z) :
  recognized (l1 ++ l2) = recognized l1 ++ recognized l2.
Proof.
  induction l1 as [|x l1 IH]; simpl; [reflexivity|].
  destruct (from_snap_count x); simpl; now rewrite IH.
Qed.

(** An iteration keeps the file equal to [all_snaps] and adds at most one
    count at the end of the list. *)
Lemma iteration_log (w : writer) (d : disk) (r : option reading) :
  cache_path d = Some (Pickled (all_snaps w)) ->
  cache_path (snd (iteration w d r))
  = Some (Pickled (all_snaps (fst (iteration w d r))))
  /\ exists more : list Z,
       all_snaps (fst (iteration w d r)) = all_snaps w ++ more
       /\ more = emitted
                   (fst (process_all (detector w) (present [r])))
       /\ detector (fst (iteration w d r))
          = snd (process_all (detector w) (present [r])).
Proof.
  intros Hd. destruct r as [r|]; simpl.
  - destruct (process_reading (detector w) (sensor1 r) (sensor2 r)
                (at_time r)) as [[n|] det]; simpl.
    + split; [reflexivity|]. exists [n]. repeat split.
    + split; [exact Hd|]. exists []. rewrite app_nil_r. repeat split.
  - split; [exact Hd|]. exists []. rewrite app_nil_r. repeat split.
Qed.

Lemma present_cons (r : option reading) (rs : list (option reading)) :
  present (r :: rs) = present [r] ++ present rs.
Proof. now destruct r. Qed.

Lemma emitted_app (o1 o2 : list (option Z)) :
  emitted (o1 ++ o2) = emitted o1 ++ emitted o2.
Proof.
  induction o1 as [|[n|] o1 IH]; simpl; [reflexivity| |assumption].
  now rewrite IH.
Qed.

Lemma iterations_log (rs : list (option reading)) :
  forall (w : writer) (d : disk),
    cache_path d = Some (Pickled (all_snaps w)) ->
    cache_path (snd (iterations w d rs))
    = Some (Pickled (all_snaps (fst (iterations w d rs))))
    /\ all_snaps (fst (iterations w d rs))
       = all_snaps w
         ++ emitted (fst (process_all (detector w) (present rs)))
    /\ detector (fst (iterations w d rs))
       = snd (process_all (detector w) (present rs)).
Proof.
  induction rs as [|r rs IH]; intros w d Hd.
  - simpl. rewrite app_nil_r. repeat split. exact Hd.
  - destruct (iteration_log w d r Hd) as (Hd1 & more & Hall & Hmore & Hdet).
    cbn [iterations]. destruct (iteration w d r) as [w1 d1].
    cbn [fst snd] in *.
    destruct (IH w1 d1 Hd1) as (Hd2 & Hall2 & Hdet2).
    rewrite present_cons, process_all_app. cbn [fst snd].
    rewrite emitted_app, <- Hdet, <- Hmore, app_assoc, <- Hall.
    repeat split; assumption.
Qed.

(** X4.  After any number of loop iterations the cache file holds exactly
    the counts the detector has returned since startup, in the order it
    returned them, and no temporary file is left. *)
Theorem log_is_emitted_counts (config : GestureConfig) (d0 : disk)
    (rs : list (option reading)) :
  let started := startup config d0 in
  let now := iterations (fst started) (snd started) rs in
  all_snaps (fst now)
  = emitted (fst (process_all (SnapDetector_init config) (present rs)))
  /\ cache_path (snd now) = Some (Pickled (all_snaps (fst now)))
  /\ tmp_path (snd now) = None.
Proof.
  intros started now.
  destruct (iterations_log rs (fst started) (snd started) eq_refl)
    as (Hd & Hall & _).
  fold now in Hd, Hall. repeat split; [exact Hall|exact Hd|].
  subst now. generalize (fst started).
  assert (Htmp : tmp_path (snd started) = None) by reflexivity.
  revert Htmp. generalize (snd started). clear.
  induction rs as [|r rs IH]; intros d Htmp w; [exact Htmp|].
  cbn [iterations].
  assert (Htmp1 : tmp_path (snd (iteration w d r)) = None).
  { destruct r as [r|]; simpl; [|exact Htmp].
    destruct (process_reading (detector w) (sensor1 r) (sensor2 r)
                (at_time r)) as [[n|] det]; simpl; [reflexivity|exact Htmp]. }
  destruct (iteration w d r) as [w1 d1]. now apply IH.
Qed.

Lemma sys_run_snoc (s : system) (es : list event) (e : event) :
  sys_run s (es ++ [e]) = sys_step (sys_run s es) e.
Proof. unfold sys_run. now rewrite fold_left_app. Qed.

(** What holds of the two processes at any moment. *)
Lemma sys_invariant (config : GestureConfig) (d0 : disk) (es : list event) :
  let s := sys_run (sys_start config d0) es in
  cache_path (sys_disk s) = Some (Pickled (all_snaps (sys_writer s)))
  /\ (_read_index (sys_reader s) <= length (all_snaps (sys_writer s)))%nat
  /\ sys_delivered s
     = recognized (firstn (_read_index (sys_reader s))
                          (all_snaps (sys_writer s))).
Proof.
  induction es as [|e es IH] using rev_ind.
  - simpl. repeat split. lia.
  - cbv zeta in IH |- *. rewrite sys_run_snoc.
    remember (sys_run (sys_start config d0) es) as s.
    destruct IH as (Hd & Hc & Hdel).
    destruct e as [r|]; unfold sys_step.
    + destruct (iteration_log (sys_writer s) (sys_disk s) r Hd)
        as (Hd1 & more & Hall & _).
      destruct (iteration (sys_writer s) (sys_disk s) r) as [w1 d1].
      cbn [fst snd sys_writer sys_disk sys_reader sys_delivered] in *.
      rewrite Hall, length_app, firstn_app.
      replace (_read_index (sys_reader s) - length (all_snaps (sys_writer s)))%nat
        with 0%nat by lia.
      rewrite firstn_O, app_nil_r.
      repeat split; [now rewrite <- Hall|lia|exact Hdel].
    + rewrite (read_new_commands_recognized _ _ _ Hd).
      cbn [sys_writer sys_disk sys_reader sys_delivered _read_index].
      rewrite Hdel, <- recognized_app, firstn_skipn.
      replace (Nat.max (_read_index (sys_reader s))
                       (length (all_snaps (sys_writer s))))
        with (length (all_snaps (sys_writer s))) by lia.
      rewrite firstn_all. repeat split; [exact Hd|lia].
Qed.

(** X5.  However the iterations of the sensing loop and the polls of the
    control loop interleave, the commands delivered so far are the
    recognized entries of the part of the log below the cursor, and a
    poll brings them up to the recognized entries of the whole log: each
    recognized entry is delivered once, in log order. *)
Theorem delivery_exactly_once (config : GestureConfig) (d0 : disk)
    (es : list event) :
  let s := sys_run (sys_start config d0) es in
  sys_delivered s
  = recognized (firstn (_read_index (sys_reader s))
                       (all_snaps (sys_writer s)))
  /\ sys_delivered (sys_step s Poll) = recognized (all_snaps (sys_writer s))
  /\ all_snaps (sys_writer (sys_step s Poll)) = all_snaps (sys_writer s).
Proof.
  intros s.
  destruct (sys_invariant config d0 es) as (_ & _ & Hdel). fold s in Hdel.
  split; [exact Hdel|].
  pose proof (sys_invariant config d0 (es ++ [Poll])) as Hnext.
  cbv zeta in Hnext. rewrite sys_run_snoc in Hnext. fold s in Hnext.
  destruct Hnext as (Hd & Hc & Hdel').
  destruct (sys_invariant config d0 es) as (Hd0 & Hc0 & _).
  fold s in Hd0, Hc0.
  assert (Hw : sys_writer (sys_step s Poll) = sys_writer s).
  { unfold sys_step.
    now destruct (read_new_commands (sys_reader s) (sys_disk s)) as [[? |?] ?]. }
  assert (Hidx : _read_index (sys_reader (sys_step s Poll))
                 = length (all_snaps (sys_writer s))).
  { unfold sys_step. rewrite (read_new_commands_recognized _ _ _ Hd0).
    simpl. lia. }
  rewrite Hdel', Hw, Hidx, firstn_all. split; reflexivity.
Qed.

(** Two snaps 0.3 s apart, polled while the burst is open and after it
    has closed: nothing at first, then the photo command, once. *)
Example two_snaps_take_one_photo :
  let es := [Sensed (Some (mkReading 0 60000 0));
             Sensed (Some (mkReading 0 10 (1 # 10)));
             Sensed (Some (mkReading 0 60000 (3 # 10)));
             Poll;
             Sensed None;
             Sensed (Some (mkReading 0 10 (11 # 10)));
             Poll; Poll] in
  map (fun n => sys_delivered
                  (sys_run (sys_start (mkGestureConfig 50000 (7 # 10))
                                      no_files)
                           (firstn n es)))
      [4; 7; 8]%nat
  = [[]; [TAKE_PHOTO]; [TAKE_PHOTO]].
Proof. reflexivity. Qed.

(** ** Gesture detector: counts *)

(** The gate touches the [_valid] flag only. *)
Lemma detect_edge_frame (d : SnapDetector) (x : Z) :
  _threshold (snd (_detect_edge d x)) = _threshold d
  /\ _time_window (snd (_detect_edge d x)) = _time_window d
  /\ _snap_count (snd (_detect_edge d x)) = _snap_count d
  /\ _prev_snap_time (snd (_detect_edge d x)) = _prev_snap_time d.
Proof.
  unfold _detect_edge.
  destruct ((x >? _threshold d) && _valid d); [repeat split|].
  destruct ((x <? _threshold d) && negb (_valid d)); repeat split.
Qed.

(** [process_reading] by cases on what the gate says. *)
Lemma process_reading_cases (d : SnapDetector) (s1 s2 : Z) (now : Q) :
  let g := _detect_edge d (s2 - s1) in
  process_reading d s1 s2 now
  = if fst g then
      (None,
       set_burst (snd g)
                 (if _snap_count d =? 0 then 1 else _snap_count d + 1)
                 (Some now))
    else
      match _prev_snap_time d with
      | Some prev =>
          if (_snap_count d >? 0) && Qlt_bool (_time_window d) (now - prev)
          then (Some (_snap_count d), set_burst (snd g) 0 None)
          else (None, snd g)
      | None => (None, snd g)
      end.
Proof.
  intros g. unfold process_reading.
  destruct (detect_edge_frame d (s2 - s1)) as (_ & Hw & Hc & Hp).
  fold g in Hw, Hc, Hp. fold g.
  destruct g as [e d1]. cbn [fst snd] in *.
  rewrite Hw, Hc, Hp.
  destruct e; [destruct (_snap_count d =? 0)|]; reflexivity.
Qed.

(** X6.  When [process_reading] returns a count, the count is the number
    of snaps of the burst and at least 1, the call itself detected no
    snap, more than the time window has passed since the last snap, and
    the detector is left with no burst open. *)
Theorem returned_count_closes_burst (d : SnapDetector) (s1 s2 : Z) (now : Q)
    (n : Z) :
  fst (process_reading d s1 s2 now) = Some n ->
  n = _snap_count d
  /\ 1 <= n
  /\ fst (_detect_edge d (s2 - s1)) = false
  /\ (exists prev : Q,
        _prev_snap_time d = Some prev
        /\ (_time_window d < now - prev)%Q)
  /\ _snap_count (snd (process_reading d s1 s2 now)) = 0
  /\ _prev_snap_time (snd (process_reading d s1 s2 now)) = None.
Proof.
  rewrite process_reading_cases. cbv zeta.
  destruct (fst (_detect_edge d (s2 - s1))); [discriminate|].
  destruct (_prev_snap_time d) as [prev|]; [|discriminate].
  destruct (_snap_count d >? 0) eqn:Hpos; [|discriminate].
  destruct (Qlt_bool (_time_window d) (now - prev)) eqn:Hlate;
    [|discriminate].
  simpl. intros H. inversion H; subst.
  apply Z.gtb_lt in Hpos. apply Qlt_bool_iff in Hlate.
  repeat split; try lia. exists prev. now split.
Qed.

Lemma returned_count_closes_burst_witness :
  let d := mkSnapDetector 50000 (7 # 10) false 3 (Some (2 # 1)) in
  fst (process_reading d 0 10 (3 # 1)) = Some 3
  /\ 1 <= 3.
Proof.
  intros d.
  assert (H : fst (process_reading d 0 10 (3 # 1)) = Some 3) by reflexivity.
  split; [exact H|].
  exact (proj1 (proj2 (returned_count_closes_burst d 0 10 (3 # 1) 3 H))).
Defined.

Lemma process_reading_frame (d : SnapDetector) (s1 s2 : Z) (now : Q) :
  _threshold (snd (process_reading d s1 s2 now)) = _threshold d
  /\ _time_window (snd (process_reading d s1 s2 now)) = _time_window d
  /\ _valid (snd (process_reading d s1 s2 now))
     = _valid (snd (_detect_edge d (s2 - s1))).
Proof.
  rewrite process_reading_cases. cbv zeta.
  destruct (detect_edge_frame d (s2 - s1)) as (Hth & Hw & _ & _).
  destruct (fst (_detect_edge d (s2 - s1))); [repeat split; assumption|].
  destruct (_prev_snap_time d) as [prev|]; [|repeat split; assumption].
  destruct ((_snap_count d >? 0) && Qlt_bool (_time_window d) (now - prev));
    repeat split; assumption.
Qed.

(** X7.  Starting from a new detector, after any stream of readings the
    threshold and the window are the configured ones, and either no burst
    is open (count 0, no snap time) or one is (count at least 1, with a
    snap time); every count returned on the way is at least 1. *)
Theorem burst_state_consistent (config : GestureConfig)
    (rs : list reading) :
  let run := process_all (SnapDetector_init config) rs in
  _threshold (snd run) = snap_threshold config
  /\ _time_window (snd run) = snap_time_window config
  /\ ((_snap_count (snd run) = 0 /\ _prev_snap_time (snd run) = None)
      \/ (1 <= _snap_count (snd run) /\ _prev_snap_time (snd run) <> None))
  /\ Forall (fun out => match out with
                        | Some n => 1 <= n
                        | None => True
                        end) (fst run).
Proof.
  cbv zeta.
  assert (Hgen : forall d : SnapDetector,
             ((_snap_count d = 0 /\ _prev_snap_time d = None)
              \/ (1 <= _snap_count d /\ _prev_snap_time d <> None)) ->
             _threshold (snd (process_all d rs)) = _threshold d
             /\ _time_window (snd (process_all d rs)) = _time_window d
             /\ ((_snap_count (snd (process_all d rs)) = 0
                  /\ _prev_snap_time (snd (process_all d rs)) = None)
                 \/ (1 <= _snap_count (snd (process_all d rs))
                     /\ _prev_snap_time (snd (process_all d rs)) <> None))
             /\ Forall (fun out => match out with
                                   | Some n => 1 <= n
                                   | None => True
                                   end) (fst (process_all d rs))).
  { induction rs as [|r rs IH]; intros d Hd.
    - simpl. repeat split; [exact Hd|constructor].
    - rewrite process_all_cons. cbn [fst snd].
      destruct (process_reading_frame d (sensor1 r) (sensor2 r) (at_time r))
        as (Hth & Hw & _).
      assert (Hstep :
        ((_snap_count (snd (process_reading d (sensor1 r) (sensor2 r)
                              (at_time r))) = 0
          /\ _prev_snap_time (snd (process_reading d (sensor1 r) (sensor2 r)
                                     (at_time r))) = None)
         \/ (1 <= _snap_count (snd (process_reading d (sensor1 r) (sensor2 r)
                                      (at_time r)))
             /\ _prev_snap_time (snd (process_reading d (sensor1 r)
                                        (sensor2 r) (at_time r))) <> None))
        /\ match fst (process_reading d (sensor1 r) (sensor2 r) (at_time r))
           with
           | Some n => 1 <= n
           | None => True
           end).
      { rewrite process_reading_cases. cbv zeta.
        destruct (detect_edge_frame d (sensor2 r - sensor1 r))
          as (_ & _ & Hc & Hp).
        destruct (fst (_detect_edge d (sensor2 r - sensor1 r))).
        - cbn [fst snd set_burst _snap_count _prev_snap_time].
          split; [right|exact I]. split; [|discriminate].
          destruct (Z.eqb_spec (_snap_count d) 0); [lia|].
          destruct Hd as [[H0 _]|[H1 _]]; lia.
        - destruct (_prev_snap_time d) as [prev|] eqn:Hprev.
          + destruct (_snap_count d >? 0) eqn:Hpos; cbn [andb].
            * apply Z.gtb_lt in Hpos.
              destruct (Qlt_bool (_time_window d) (at_time r - prev)).
              -- cbn [fst snd set_burst _snap_count _prev_snap_time].
                 split; [left; split; reflexivity|lia].
              -- cbn [fst snd]. rewrite Hc, Hp.
                 split; [right; split; [lia|discriminate]|exact I].
            * cbn [fst snd]. rewrite Hc, Hp. split; [exact Hd|exact I].
          + cbn [fst snd]. rewrite Hc, Hp. split; [exact Hd|exact I]. }
      destruct Hstep as [Hd1 Hout].
      destruct (IH _ Hd1) as (Hth2 & Hw2 & Hd2 & Hall).
      rewrite Hth2, Hw2. repeat split; try assumption.
      constructor; assumption. }
  apply (Hgen (SnapDetector_init config)). left. split; reflexivity.
Qed.

Lemma detect_edge_gate (d1 d2 : SnapDetector) (x : Z) :
  _threshold d1 = _threshold d2 -> _valid d1 = _valid d2 ->
  fst (_detect_edge d1 x) = fst (_detect_edge d2 x)
  /\ _threshold (snd (_detect_edge d1 x)) = _threshold (snd (_detect_edge d2 x))
  /\ _valid (snd (_detect_edge d1 x)) = _valid (snd (_detect_edge d2 x)).
Proof.
  intros Hth Hv. unfold _detect_edge. rewrite Hth, Hv.
  destruct ((x >? _threshold d2) && _valid d2); [repeat split; assumption|].
  destruct ((x <? _threshold d2) && negb (_valid d2));
    repeat split; assumption.
Qed.

(** What the gate detects depends on the threshold and the flag only. *)
Lemma detect_all_gate (diffs : list Z) :
  forall d1 d2 : SnapDetector,
    _threshold d1 = _threshold d2 -> _valid d1 = _valid d2 ->
    fst (detect_all d1 diffs) = fst (detect_all d2 diffs).
Proof.
  induction diffs as [|x diffs IH]; intros d1 d2 Hth Hv; [reflexivity|].
  destruct (detect_edge_gate d1 d2 x Hth Hv) as (He & Hth' & Hv').
  simpl.
  destruct (_detect_edge d1 x) as [e1 d1'], (_detect_edge d2 x) as [e2 d2'].
  cbn [fst snd] in *. subst e2.
  specialize (IH d1' d2' Hth' Hv').
  destruct (detect_all d1' diffs), (detect_all d2' diffs).
  cbn [fst] in *. now subst.
Qed.

Lemma detect_all_cons (d : SnapDetector) (x : Z) (diffs : list Z) :
  fst (detect_all d (x :: diffs))
  = fst (_detect_edge d x) :: fst (detect_all (snd (_detect_edge d x)) diffs).
Proof.
  cbn [detect_all]. destruct (_detect_edge d x) as [e d1]. cbn [fst snd].
  destruct (detect_all d1 diffs); reflexivity.
Qed.

(** X8.  No snap is lost or counted twice: over any stream and from any
    detector state, the counts returned plus the count of the burst still
    open equal the count the burst had at the start plus the number of
    edges the gate detected. *)
Theorem snaps_are_conserved (rs : list reading) :
  forall d : SnapDetector,
    fold_right Z.add 0 (emitted (fst (process_all d rs)))
    + _snap_count (snd (process_all d rs))
    = _snap_count d
      + Z.of_nat (count_occ bool_dec
                            (fst (detect_all d (map diff_of rs))) true).
Proof.
  induction rs as [|r rs IH]; intros d; [simpl; lia|].
  rewrite process_all_cons. cbn [fst snd map].
  rewrite detect_all_cons.
  destruct (process_reading_frame d (sensor1 r) (sensor2 r) (at_time r))
    as (Hth & _ & Hv).
  destruct (detect_edge_frame d (sensor2 r - sensor1 r)) as (Hth' & _ & Hc & _).
  rewrite <- (detect_all_gate (map diff_of rs)
                (snd (process_reading d (sensor1 r) (sensor2 r) (at_time r)))
                (snd (_detect_edge d (diff_of r))))
    by (unfold diff_of; congruence).
  specialize (IH (snd (process_reading d (sensor1 r) (sensor2 r)
                         (at_time r)))).
  revert IH. rewrite process_reading_cases. cbv zeta. unfold diff_of.
  destruct (fst (_detect_edge d (sensor2 r - sensor1 r))).
  - cbn [fst snd emitted set_burst _snap_count]. intros IH.
    rewrite count_occ_cons_eq by reflexivity.
    destruct (Z.eqb_spec (_snap_count d) 0); lia.
  - rewrite count_occ_cons_neq by discriminate.
    destruct (_prev_snap_time d) as [prev|].
    + destruct ((_snap_count d >? 0)
                && Qlt_bool (_time_window d) (at_time r - prev)).
      * cbn [fst snd emitted set_burst _snap_count fold_right]. lia.
      * cbn [fst snd emitted]. rewrite Hc. lia.
    + cbn [fst snd emitted]. rewrite Hc. lia.
Qed.

(** ** PID controller: clamps *)

Lemma update_in_limits (st : PIDController) (now e : Q) (dt : option Q)
    (lo hi : Q) :
  output_limits st = (lo, hi) ->
  (lo <= fst (update st now e dt))%Q
  /\ ((lo <= hi)%Q -> (fst (update st now e dt) <= hi)%Q).
Proof.
  intros Hlim. unfold update. rewrite Hlim. cbn [fst].
  unfold py_max, py_min. split; [|intros Hord]; py_cmp; lra.
Qed.

(** X9.  The value [update] returns is never below the lower output
    limit, and never above the upper one when the limits are in order,
    whatever the state, the error and the time step. *)
Theorem update_output_clamped (st : PIDController) (now e : Q)
    (dt : option Q) (lo hi : Q) :
  output_limits st = (lo, hi) ->
  (lo <= fst (update st now e dt))%Q
  /\ ((lo <= hi)%Q -> (fst (update st now e dt) <= hi)%Q).
Proof. apply update_in_limits. Qed.

Lemma update_output_clamped_witness :
  let st := PIDController_init (mkPIDConfig (2 # 10) (4 # 100) (5 # 1000))
                               (- (100), 100)%Q None in
  output_limits st = (- (100), 100)%Q
  /\ (- (100) <= fst (update st 0 9999 None))%Q.
Proof.
  intros st.
  assert (H : output_limits st = (- (100), 100)%Q) by reflexivity.
  split; [exact H|].
  exact (proj1 (update_output_clamped st 0 9999 None _ _ H)).
Defined.

Lemma run_integral_limit (calls : list call) :
  forall st : PIDController,
    integral_limit (PID.run st calls) = integral_limit st.
Proof.
  induction calls as [|c calls IH]; intros st; [reflexivity|].
  change (PID.run st (c :: calls)) with (PID.run (PID.step st c) calls).
  now rewrite IH, step_integral_limit.
Qed.

(** X10.  With a non-negative [integral_limit], after one or more
    [update] calls the integral lies within the limit, whatever it was
    before and whatever the errors and time steps of the calls. *)
Theorem integral_within_limit (st : PIDController) (calls : list call)
    (c : call) (limit : Q) :
  integral_limit st = Some limit ->
  (0 <= limit)%Q ->
  (- limit <= _integral (PID.run st (calls ++ [c])) <= limit)%Q.
Proof.
  intros Hlim Hpos. rewrite run_snoc, step_integral.
  unfold next_integral. rewrite run_integral_limit, Hlim.
  unfold py_max, py_min. py_cmp; lra.
Qed.

Lemma integral_within_limit_witness :
  let st := mkPID (mkPIDConfig (2 # 10) (4 # 100) (5 # 1000))
                  (- (100), 100)%Q (Some 5%Q) 70 (Some 3%Q) (Some 1%Q) in
  let c := mkCall 2 (- (40)) (Some (1 # 2)) in
  integral_limit st = Some 5%Q
  /\ (0 <= 5)%Q
  /\ (- (5) <= _integral (PID.run st ([] ++ [c])) <= 5)%Q.
Proof.
  intros st c.
  assert (Hlim : integral_limit st = Some 5%Q) by reflexivity.
  assert (Hpos : (0 <= 5)%Q) by discriminate.
  refine (conj Hlim (conj Hpos _)).
  exact (integral_within_limit st [] c 5 Hlim Hpos).
Defined.

Lemma py_min_compat (hi x y : Q) : (x == y)%Q -> (py_min hi x == py_min hi y)%Q.
Proof. intros H. unfold py_min. py_cmp; lra. Qed.

Lemma py_max_compat (lo x y : Q) : (x == y)%Q -> (py_max lo x == py_max lo y)%Q.
Proof. intros H. unfold py_max. py_cmp; lra. Qed.

(** X11.  The first [update] of a new controller that is called without
    [dt] is purely proportional: the time step is 0, so nothing is
    accumulated and there is no derivative, and the result is [kp * error]
    clamped to the output limits. *)
Theorem first_update_is_proportional (cfg : PIDConfig) (lo hi : Q)
    (ilimit : option Q) (now e : Q) :
  match ilimit with
  | Some limit => (0 <= limit)%Q
  | None => True
  end ->
  (fst (update (PIDController_init cfg (lo, hi) ilimit) now e None)
   == py_max lo (py_min hi (kp cfg * e)))%Q
  /\ (_integral (snd (update (PIDController_init cfg (lo, hi) ilimit)
                             now e None)) == 0)%Q.
Proof.
  intros Hlim.
  assert (Hint : (next_integral (PIDController_init cfg (lo, hi) ilimit) e 0
                  == 0)%Q).
  { unfold next_integral. cbn [PIDController_init integral_limit _integral].
    destruct ilimit as [limit|]; [|lra].
    unfold py_max, py_min. py_cmp; lra. }
  unfold update.
  cbn [PIDController_init effective_dt _last_time _prev_error config
       output_limits fst snd _integral] in *.
  split; [|exact Hint].
  apply py_max_compat, py_min_compat.
  rewrite Hint. lra.
Qed.

Lemma first_update_is_proportional_witness :
  let cfg := mkPIDConfig (2 # 10) (4 # 100) (5 # 1000) in
  (fst (update (PIDController_init cfg (- (100), 100)%Q (Some 5%Q))
               (17 # 1) (- (280)) None)
   == py_max (- (100)) (py_min 100 (kp cfg * - (280))))%Q.
Proof.
  intros cfg.
  refine (proj1 (first_update_is_proportional cfg (- (100)) 100 (Some 5%Q)
                   (17 # 1) (- (280)) _)).
  discriminate.
Defined.

(** ** Face tracker: command bounds *)

(** [int(x)] of a float between two integers lies between them. *)
Lemma py_int_between (lo hi : Z) (q : Q) :
  (inject_Z lo <= q <= inject_Z hi)%Q -> lo <= py_int q <= hi.
Proof.
  destruct q as [n d]. unfold py_int, Qle. simpl.
  rewrite !Z.mul_1_r. intros [Hlo Hhi].
  destruct (Z_lt_le_dec n 0) as [Hneg|Hpos].
  - replace n with (- (- n)) by lia.
    rewrite Z.quot_opp_l by lia.
    rewrite Z.quot_div_nonneg by lia.
    assert (H1 : (- n) / Z.pos d <= - lo)
      by (apply Z.div_le_upper_bound; lia).
    assert (H2 : - hi <= (- n) / Z.pos d)
      by (apply Z.div_le_lower_bound; lia).
    lia.
  - rewrite Z.quot_div_nonneg by lia.
    split; [apply Z.div_le_lower_bound|apply Z.div_le_upper_bound]; lia.
Qed.

Lemma np_clip_between (x lo hi : Q) :
  (lo <= hi)%Q -> (lo <= np_clip x lo hi <= hi)%Q.
Proof. intros H. unfold np_clip, py_max, py_min. py_cmp; lra. Qed.

Lemma update_output_limits (st : PIDController) (now e : Q) (dt : option Q) :
  output_limits (snd (update st now e dt)) = output_limits st.
Proof. unfold update. now destruct (output_limits st). Qed.

Lemma compute_forward_back_values (t : FaceTracker) (a : Z) :
  _compute_forward_back t a = 0
  \/ _compute_forward_back t a = forward_speed (_config t)
  \/ _compute_forward_back t a = backward_speed (_config t).
Proof.
  unfold _compute_forward_back.
  destruct ((face_area_min (_config t) <=? a)
            && (a <=? face_area_max (_config t))); [now left|].
  destruct (a >? face_area_max (_config t)); [now right; right|].
  destruct (a >? 0); [now right; left|now left].
Qed.

Lemma handle_lost_output (t : FaceTracker) :
  fst (_handle_lost_face t) = (0, 0, 0, 0)
  \/ fst (_handle_lost_face t) = (0, 0, 0, search_yaw t).
Proof.
  unfold _handle_lost_face. cbv zeta.
  destruct (count_lost _ >? _); [right|left]; reflexivity.
Qed.

(** One call keeps its command within the limits and leaves the yaw
    controller's output limits and the configuration as they were. *)
Lemma step_within_limits (t : FaceTracker) (c : cycle) :
  0 <= yaw_speed_limit (_config t) ->
  0 <= vertical_speed_limit (_config t) ->
  output_limits (_yaw_pid t)
  = (inject_Z (- yaw_speed_limit (_config t)),
     inject_Z (yaw_speed_limit (_config t))) ->
  within_limits (_config t) (fst (step t c))
  /\ _config (snd (step t c)) = _config t
  /\ output_limits (_yaw_pid (snd (step t c))) = output_limits (_yaw_pid t).
Proof.
  intros Hyl Hvl Hlim. unfold step. destruct (cycle_face c) as [face|].
  - unfold compute_control. cbv zeta.
    set (t1 := if center_x face <? _frame_w t / 2
               then set_direction t "-" else set_direction t "+").
    assert (Ht1 : _config t1 = _config t /\ _yaw_pid t1 = _yaw_pid t
                  /\ _target_x t1 = _target_x t)
      by (subst t1; destruct (center_x face <? _frame_w t / 2);
          repeat split).
    destruct Ht1 as (Hcfg & Hyaw & Htx).
    cbn [set_history _yaw_pid _vertical_pid _target_x _target_y _config].
    rewrite Hyaw.
    pose proof (update_in_limits (_yaw_pid t) (cycle_now_yaw c)
                  (inject_Z (center_x face - _target_x t1)) None _ _ Hlim)
      as [Hlo Hhi].
    pose proof (update_output_limits (_yaw_pid t) (cycle_now_yaw c)
                  (inject_Z (center_x face - _target_x t1)) None) as Hkeep.
    destruct (PID.update (_yaw_pid t) (cycle_now_yaw c) _ None)
      as [yaw_out yaw_pid].
    destruct (PID.update (_vertical_pid t1) (cycle_now_vertical c) _ None)
      as [vertical_raw vertical_pid].
    cbn [fst snd set_pids set_history _config _yaw_pid] in *.
    rewrite !Hcfg.
    assert (Hord : (inject_Z (- yaw_speed_limit (_config t))
                    <= inject_Z (yaw_speed_limit (_config t)))%Q)
      by (rewrite <- Zle_Qle; lia).
    assert (Hvord : (inject_Z (- vertical_speed_limit (_config t))
                     <= inject_Z (vertical_speed_limit (_config t)))%Q)
      by (rewrite <- Zle_Qle; lia).
    split; [|split; [reflexivity|exact Hkeep]].
    unfold within_limits. split; [reflexivity|]. split.
    + pose proof (compute_forward_back_values
                    (set_pids
                       (set_history t1
                          (deque_append (_center_history t1)
                             (center_x face, center_y face)))
                       yaw_pid vertical_pid)
                    (area face)) as Hfb.
      cbn [set_pids set_history _config] in Hfb. rewrite Hcfg in Hfb.
      exact Hfb.
    + split.
      * apply py_int_between. now apply np_clip_between.
      * left. apply py_int_between. split; [exact Hlo|exact (Hhi Hord)].
  - rewrite compute_control_lost, handle_lost_state.
    cbn [set_history _config _yaw_pid].
    split; [|split; reflexivity].
    destruct (handle_lost_output t) as [-> | ->]; unfold within_limits.
    + split; [reflexivity|split; [now left|split; [lia|left; lia]]].
    + split; [reflexivity|split; [now left|split; [lia|right]]].
      unfold search_yaw.
      destruct (String.eqb _ _); [now left|now right].
Qed.

Lemma run_within_limits (cs : list cycle) :
  forall t : FaceTracker,
    0 <= yaw_speed_limit (_config t) ->
    0 <= vertical_speed_limit (_config t) ->
    output_limits (_yaw_pid t)
    = (inject_Z (- yaw_speed_limit (_config t)),
       inject_Z (yaw_speed_limit (_config t))) ->
    Forall (within_limits (_config t)) (fst (run t cs)).
Proof.
  induction cs as [|c cs IH]; intros t Hyl Hvl Hlim; [constructor|].
  destruct (step_within_limits t c Hyl Hvl Hlim) as (Hout & Hcfg & Hkeep).
  cbn [run]. destruct (step t c) as [out t1]. cbn [fst snd] in *.
  assert (IH1 : Forall (within_limits (_config t1)) (fst (run t1 cs))).
  { apply IH; rewrite ?Hcfg, ?Hkeep; assumption. }
  rewrite Hcfg in IH1.
  destruct (run t1 cs) as [outs t2]. cbn [fst] in *.
  constructor; assumption.
Qed.

(** X12.  With non-negative speed limits configured, every command a
    newly built tracker returns, over any sequence of calls, has no
    left/right component, a forward/back speed that is 0 or one of the two
    configured speeds, a vertical speed within [vertical_speed_limit], and
    a yaw within [yaw_speed_limit] or equal to plus or minus
    [search_rotation_speed]. *)
Theorem commands_within_limits (cfg : TrackingConfig) (dcfg : DroneConfig)
    (t0 : FaceTracker) (cs : list cycle) :
  FaceTracker_init cfg dcfg = Ok t0 ->
  0 <= yaw_speed_limit cfg ->
  0 <= vertical_speed_limit cfg ->
  Forall (within_limits cfg) (fst (run t0 cs)).
Proof.
  intros Hinit Hyl Hvl.
  assert (Ht0 : _config t0 = cfg
                /\ output_limits (_yaw_pid t0)
                   = (inject_Z (- yaw_speed_limit cfg),
                      inject_Z (yaw_speed_limit cfg))).
  { unfold FaceTracker_init in Hinit.
    destruct (deque_init (frame_width dcfg)); [|discriminate].
    inversion Hinit; subst. split; reflexivity. }
  destruct Ht0 as [Hcfg Hlim]. subst cfg.
  now apply run_within_limits.
Qed.

Lemma commands_within_limits_witness :
  let far_right :=
    mkCycle (Some (mkFaceInfo 950 700 9000 (900, 650, 100, 90)))
            100 0 0 in
  FaceTracker_init default_tracking_config default_drone_config
  = Ok default_tracker
  /\ 0 <= yaw_speed_limit default_tracking_config
  /\ 0 <= vertical_speed_limit default_tracking_config
  /\ Forall (within_limits default_tracking_config)
            (fst (run default_tracker [far_right; lost_cycle 100 1])).
Proof.
  intros far_right.
  assert (Hinit : FaceTracker_init default_tracking_config
                    default_drone_config = Ok default_tracker)
    by reflexivity.
  assert (Hyl : 0 <= yaw_speed_limit default_tracking_config)
    by (simpl; lia).
  assert (Hvl : 0 <= vertical_speed_limit default_tracking_config)
    by (simpl; lia).
  refine (conj Hinit (conj Hyl (conj Hvl _))).
  exact (commands_within_limits _ _ _ _ Hinit Hyl Hvl).
Defined.

Example far_right_command :
  fst (step default_tracker
         (mkCycle (Some (mkFaceInfo 950 700 9000 (900, 650, 100, 90)))
                  100 0 0))
  = (0, 20, -20, 94).
Proof. reflexivity. Qed.

(** ** Face tracker: loss handling *)

Lemma run_cons (t : FaceTracker) (c : cycle) (cs : list cycle) :
  run t (c :: cs)
  = (fst (step t c) :: fst (run (snd (step t c)) cs),
     snd (run (snd (step t c)) cs)).
Proof.
  cbn [run]. destruct (step t c) as [out t1]. cbn [fst snd].
  destruct (run t1 cs); reflexivity.
Qed.

(** X13.  Calls without an observation touch nothing but the history:
    over any run of them both PID controllers, the last known direction
    and the configuration stay as they were, and every command is either
    all zeros or a pure yaw at the search speed, signed by that
    direction. *)
Theorem lost_calls_touch_history_only (t : FaceTracker) (cs : list cycle) :
  Forall (fun c => cycle_face c = None) cs ->
  _yaw_pid (snd (run t cs)) = _yaw_pid t
  /\ _vertical_pid (snd (run t cs)) = _vertical_pid t
  /\ _last_known_direction (snd (run t cs)) = _last_known_direction t
  /\ _config (snd (run t cs)) = _config t
  /\ Forall (fun out => out = (0, 0, 0, 0) \/ out = (0, 0, 0, search_yaw t))
            (fst (run t cs)).
Proof.
  intros Hlost. rewrite (run_lost cs t Hlost).
  repeat split.
  revert t. induction Hlost as [|c cs Hc _ IH]; intros t; [constructor|].
  rewrite run_cons. cbn [fst]. rewrite (step_lost _ _ Hc).
  constructor; [apply handle_lost_output|].
  rewrite handle_lost_state. apply (IH (set_history t _)).
Qed.

Lemma lost_calls_touch_history_only_witness :
  let seen := mkCycle (Some (mkFaceInfo 200 180 14500 (150, 130, 100, 145)))
                      100 0 0 in
  let t := snd (step default_tracker seen) in
  let cs := repeat (lost_cycle 100 1) 3 in
  Forall (fun c => cycle_face c = None) cs
  /\ _yaw_pid (snd (run t cs)) = _yaw_pid t.
Proof.
  intros seen t cs.
  assert (H : Forall (fun c => cycle_face c = None) cs)
    by (repeat constructor).
  split; [exact H|].
  exact (proj1 (lost_calls_touch_history_only t cs H)).
Defined.

Lemma count_lost_le_length (l : list (Z * Z)) :
  count_lost l <= Z.of_nat (length l).
Proof.
  induction l as [|[x y] l IH]; cbn [count_lost length]; [lia|].
  destruct ((x =? 0) && (y =? 0)); lia.
Qed.

Lemma slice_from_length {A : Type} (start : Z) (l : list A) :
  (length (slice_from start l) <= length l)%nat.
Proof. unfold slice_from. rewrite length_skipn. lia. Qed.

Lemma deque_append_length (d : deque) (x : Z * Z) :
  (length (items (deque_append d x)) <= S (length (items d)))%nat.
Proof.
  unfold deque_append.
  destruct (maxlen d <? length (items d ++ [x]))%nat; cbn [items].
  - destruct (items d ++ [x]) as [|y l] eqn:Hl; cbn [tl length]; [lia|].
    apply (f_equal (@length _)) in Hl. rewrite length_app in Hl.
    simpl in Hl. lia.
  - rewrite length_app. simpl. lia.
Qed.

Lemma iter_append_lost_length (k : nat) (d : deque) :
  (length (items (Nat.iter k append_lost d)) <= k + length (items d))%nat.
Proof.
  induction k as [|k IH]; [simpl; lia|].
  cbn [Nat.iter nat_rect].
  change (nat_rect _ d (fun _ => append_lost) k)
    with (Nat.iter k append_lost d).
  unfold append_lost at 1.
  pose proof (deque_append_length (Nat.iter k append_lost d) (0, 0)). lia.
Qed.

(** While no more calls than the threshold have gone without an
    observation since the history was empty, the next one holds. *)
Lemma hold_within_grace (t : FaceTracker) (cs : list cycle) (c : cycle) :
  items (_center_history t) = [] ->
  Forall (fun c => cycle_face c = None) (cs ++ [c]) ->
  Z.of_nat (length (cs ++ [c])) <= lost_face_threshold (_config t) ->
  fst (step (snd (run t cs)) c) = (0, 0, 0, 0).
Proof.
  intros Hempty Hlost Hlen.
  apply Forall_app in Hlost as [Hcs Hc]. inversion Hc as [|? ? Hc' _]; subst.
  rewrite (step_lost _ _ Hc'), (run_lost _ _ Hcs).
  unfold _handle_lost_face. cbv zeta.
  cbn [set_history _center_history _center_history_size _config].
  change (deque_append (Nat.iter (length cs) append_lost (_center_history t))
                       (0, 0))
    with (Nat.iter (S (length cs)) append_lost (_center_history t)).
  pose proof (iter_append_lost_length (S (length cs)) (_center_history t))
    as Hk.
  rewrite Hempty in Hk. rewrite length_app in Hlen.
  cbn [length] in Hk, Hlen.
  match goal with
  | |- context [count_lost ?l] =>
      pose proof (count_lost_le_length l) as Hcount;
      pose proof (slice_from_length (- _center_history_size t)
                    (items (Nat.iter (S (length cs)) append_lost
                              (_center_history t)))) as Hslice
  end.
  replace (_ >? lost_face_threshold (_config t)) with false
    by (symmetry; rewrite Z.gtb_ltb; apply Z.ltb_ge; lia).
  reflexivity.
Qed.

(** X14.  Grace period: starting from an empty history (a new tracker, or
    one just reset), the first [lost_face_threshold] calls without an
    observation all return four zeros. *)
Theorem grace_period_holds_position (t : FaceTracker) (cs : list cycle) :
  items (_center_history t) = [] ->
  Forall (fun c => cycle_face c = None) cs ->
  Z.of_nat (length cs) <= lost_face_threshold (_config t) ->
  Forall (fun out => out = (0, 0, 0, 0)) (fst (run t cs)).
Proof.
  intros Hempty. induction cs as [|c cs IH] using rev_ind;
    intros Hlost Hlen; [constructor|].
  assert (Hrun : fst (run t (cs ++ [c]))
                 = fst (run t cs) ++ [fst (step (snd (run t cs)) c)]).
  { clear. revert t. induction cs as [|c0 cs IH]; intros t.
    - simpl. destruct (step t c); reflexivity.
    - cbn [app]. rewrite !run_cons. cbn [fst]. now rewrite IH. }
  rewrite Hrun. apply Forall_app. split.
  - apply IH.
    + now apply Forall_app in Hlost as [? _].
    + rewrite length_app in Hlen. simpl in Hlen. lia.
  - constructor; [|constructor]. now apply hold_within_grace.
Qed.

Lemma grace_period_holds_position_witness :
  let t := reset default_tracker in
  let cs := repeat (lost_cycle 100 1) 15 in
  items (_center_history t) = []
  /\ Forall (fun c => cycle_face c = None) cs
  /\ Z.of_nat (length cs) <= lost_face_threshold (_config t)
  /\ Forall (fun out => out = (0, 0, 0, 0)) (fst (run t cs)).
Proof.
  intros t cs.
  assert (H1 : items (_center_history t) = []) by reflexivity.
  assert (H2 : Forall (fun c => cycle_face c = None) cs)
    by (repeat constructor).
  assert (H3 : Z.of_nat (length cs) <= lost_face_threshold (_config t))
    by (simpl; lia).
  refine (conj H1 (conj H2 (conj H3 _))).
  exact (grace_period_holds_position t cs H1 H2 H3).
Defined.

Lemma suffix_weaken {A : Type} (l pre : list A) (a : A) (n m : nat) :
  l = pre ++ repeat a n -> (m <= n)%nat ->
  exists pre' : list A, l = pre' ++ repeat a m.
Proof.
  intros -> Hm. exists (pre ++ repeat a (n - m)).
  rewrite <- app_assoc, <- repeat_app. do 2 f_equal. lia.
Qed.

(** The sentinels appended last are at the right end of the deque, as
    many of them as the deque can hold. *)
Lemma iter_append_lost_suffix_min (k : nat) (d : deque) :
  exists pre : list (Z * Z),
    items (Nat.iter k append_lost d)
    = pre ++ repeat (0, 0) (Nat.min k (maxlen d)).
Proof.
  induction k as [|k IH].
  - exists (items d). simpl. now rewrite app_nil_r.
  - destruct IH as [pre Hpre].
    pose proof (iter_append_lost_maxlen k d) as Hmax.
    cbn [Nat.iter nat_rect].
    change (nat_rect _ d (fun _ => append_lost) k)
      with (Nat.iter k append_lost d).
    unfold append_lost at 1. unfold deque_append.
    rewrite Hpre, Hmax, <- app_assoc.
    replace (repeat (0, 0) (Nat.min k (maxlen d)) ++ [(0, 0)])
      with (repeat (0, 0) (S (Nat.min k (maxlen d))))
      by (rewrite <- repeat_cons; reflexivity).
    destruct (Nat.ltb_spec (maxlen d)
                (length (pre ++ repeat (0, 0) (S (Nat.min k (maxlen d))))))
      as [Hfull|Hroom]; cbn [items].
    + destruct pre as [|a pre].
      * rewrite length_app, repeat_length in Hfull. cbn [length] in Hfull.
        cbn [app repeat tl].
        eapply (suffix_weaken _ []); [reflexivity|lia].
      * cbn [app tl]. eapply suffix_weaken; [reflexivity|lia].
    + rewrite length_app, repeat_length in Hroom.
      eapply suffix_weaken; [reflexivity|lia].
Qed.

Lemma search_while_lost (t : FaceTracker) (cs : list cycle) (c : cycle) :
  _center_history_size t = 20 ->
  0 <= lost_face_threshold (_config t) < 20 ->
  lost_face_threshold (_config t) < Z.of_nat (maxlen (_center_history t)) ->
  Forall (fun c => cycle_face c = None) (cs ++ [c]) ->
  lost_face_threshold (_config t) <= Z.of_nat (length cs) ->
  fst (step (snd (run t cs)) c) = (0, 0, 0, search_yaw t).
Proof.
  intros Hsize Hth Hcap Hlost Hlen.
  apply Forall_app in Hlost as [Hcs Hc]. inversion Hc as [|? ? Hc' _]; subst.
  rewrite (step_lost _ _ Hc'), (run_lost _ _ Hcs).
  unfold _handle_lost_face. cbv zeta.
  destruct t as [cfg fw fh tx ty yp vp hist size dir].
  cbn [set_history _center_history _center_history_size _config
       _last_known_direction items] in *.
  subst size.
  change (deque_append (Nat.iter (length cs) append_lost hist) (0, 0))
    with (Nat.iter (S (length cs)) append_lost hist).
  destruct (iter_append_lost_suffix_min (S (length cs)) hist) as [pre0 Hpre0].
  destruct (suffix_weaken _ _ _ _
              (S (Z.to_nat (lost_face_threshold cfg))) Hpre0 ltac:(lia))
    as [pre Hpre].
  rewrite Hpre.
  destruct (slice_from_keeps_suffix pre
              (repeat (0, 0) (S (Z.to_nat (lost_face_threshold cfg)))))
    as [pre' Hslice]; [rewrite repeat_length; lia|].
  rewrite Hslice, count_lost_app, count_lost_sentinels.
  pose proof (count_lost_nonneg pre') as Hpos.
  replace (_ >? lost_face_threshold cfg) with true
    by (symmetry; apply Z.gtb_lt; lia).
  reflexivity.
Qed.

(** X15.  The search goes on for as long as the face stays lost: with the
    threshold inside the window of twenty entries and below the capacity
    of the history, every call without an observation that follows at
    least [lost_face_threshold] such calls returns a pure yaw at the
    search speed, signed by the last known direction. *)
Theorem search_continues_while_lost (t : FaceTracker) (cs : list cycle)
    (c : cycle) :
  _center_history_size t = 20 ->
  0 <= lost_face_threshold (_config t) < 20 ->
  lost_face_threshold (_config t) < Z.of_nat (maxlen (_center_history t)) ->
  Forall (fun c => cycle_face c = None) (cs ++ [c]) ->
  lost_face_threshold (_config t) <= Z.of_nat (length cs) ->
  fst (step (snd (run t cs)) c) = (0, 0, 0, search_yaw t).
Proof. apply search_while_lost. Qed.

Lemma search_continues_while_lost_witness :
  let t := default_tracker in
  let cs := repeat (lost_cycle 100 0) 40 in
  let c := lost_cycle 100 0 in
  _center_history_size t = 20
  /\ 0 <= lost_face_threshold (_config t) < 20
  /\ lost_face_threshold (_config t) < Z.of_nat (maxlen (_center_history t))
  /\ Forall (fun c => cycle_face c = None) (cs ++ [c])
  /\ lost_face_threshold (_config t) <= Z.of_nat (length cs)
  /\ fst (step (snd (run t cs)) c) = (0, 0, 0, 40).
Proof.
  intros t cs c.
  assert (H1 : _center_history_size t = 20) by reflexivity.
  assert (H2 : 0 <= lost_face_threshold (_config t) < 20) by (simpl; lia).
  assert (H3 : lost_face_threshold (_config t)
               < Z.of_nat (maxlen (_center_history t))) by (simpl; lia).
  assert (H4 : Forall (fun c => cycle_face c = None) (cs ++ [c]))
    by (repeat constructor).
  assert (H5 : lost_face_threshold (_config t) <= Z.of_nat (length cs))
    by (simpl; lia).
  refine (conj H1 (conj H2 (conj H3 (conj H4 (conj H5 _))))).
  exact (search_continues_while_lost t cs c H1 H2 H3 H4 H5).
Defined.

(** ** Face tracker: distance keeping and dispatch *)

(** X16.  Forward/back speed by face area: an area above [face_area_max]
    gives the backward speed; an area from [face_area_min] to
    [face_area_max] gives 0; a positive area below [face_area_min] that
    is not above [face_area_max] gives the forward speed; an area that is
    not positive gives 0 unless it is above [face_area_max]. *)
Theorem forward_back_by_area (t : FaceTracker) (a : Z) :
  (face_area_max (_config t) < a ->
   _compute_forward_back t a = backward_speed (_config t))
  /\ (face_area_min (_config t) <= a <= face_area_max (_config t) ->
      _compute_forward_back t a = 0)
  /\ (0 < a < face_area_min (_config t) ->
      a <= face_area_max (_config t) ->
      _compute_forward_back t a = forward_speed (_config t))
  /\ (a <= 0 -> a <= face_area_max (_config t) ->
      _compute_forward_back t a = 0).
Proof.
  unfold _compute_forward_back.
  destruct (Z.leb_spec (face_area_min (_config t)) a);
    destruct (Z.leb_spec a (face_area_max (_config t)));
    cbn [andb];
    rewrite ?Z.gtb_ltb;
    destruct (Z.ltb_spec (face_area_max (_config t)) a);
    destruct (Z.ltb_spec 0 a);
    repeat split; intros; try reflexivity; lia.
Qed.

Lemma forward_back_by_area_witness :
  face_area_max (_config default_tracker) < 20000
  /\ _compute_forward_back default_tracker 20000 = -20.
Proof.
  assert (H : face_area_max (_config default_tracker) < 20000)
    by (simpl; lia).
  split; [exact H|].
  exact (proj1 (forward_back_by_area default_tracker 20000) H).
Defined.

Lemma reset_idempotent (t : FaceTracker) : reset (reset t) = reset t.
Proof. reflexivity. Qed.

(** X17.  Dispatching the commands of one poll leaves the tracker as one
    [reset] leaves it when CIRCLE_MOTION is among them, however often, and
    untouched otherwise; the last known direction survives either way. *)
Theorem dispatch_resets_at_most_once (t : FaceTracker)
    (cmds : list Command) :
  dispatch t cmds
  = (if existsb (fun cmd => match cmd with
                            | CIRCLE_MOTION => true
                            | TAKE_PHOTO => false
                            end) cmds
     then reset t else t)
  /\ _last_known_direction (dispatch t cmds) = _last_known_direction t.
Proof.
  assert (Hgen : forall t0 : FaceTracker,
             dispatch t0 cmds
             = if existsb (fun cmd => match cmd with
                                      | CIRCLE_MOTION => true
                                      | TAKE_PHOTO => false
                                      end) cmds
               then reset t0 else t0).
  { induction cmds as [|cmd cmds IH]; intros t0; [reflexivity|].
    unfold dispatch in *. cbn [fold_left existsb].
    destruct cmd; cbn [orb]; rewrite IH; [|reflexivity].
    now destruct (existsb _ cmds). }
  split; [apply Hgen|].
  rewrite Hgen. now destruct (existsb _ cmds).
Qed.

(** ** Drone connection *)

Import Drone.

(** X18.  [cleanup] sends the land command exactly when the drone is
    airborne and always goes on to stop the stream, also when landing
    raised; afterwards the drone counts as airborne only if it was and the
    landing raised. *)
Theorem cleanup_tries_both_steps (fails : tello_call -> bool)
    (d : DroneConnection) :
  cleanup fails d
  = (Done,
     mkDrone (ascent_speed d) (_airborne d && fails TLand),
     (if _airborne d then [TLand] else []) ++ [TStreamOff]).
Proof.
  unfold cleanup, land. destruct d as [speed [|]]; cbn [_airborne ascent_speed];
    [destruct (fails TLand)|]; reflexivity.
Qed.

(** X19.  One landing per flight: after a [takeoff] and a [land] that
    both went through, further [land] and [cleanup] calls send no land
    command, whatever the drone would answer. *)
Theorem land_once_per_flight (fails fails' : tello_call -> bool)
    (d : DroneConnection) :
  fst (fst (takeoff fails d)) = Done ->
  let flying := snd (fst (takeoff fails d)) in
  fst (fst (land fails flying)) = Done ->
  let landed := snd (fst (land fails flying)) in
  _airborne flying = true
  /\ snd (land fails flying) = [TLand]
  /\ land fails' landed = (Done, landed, [])
  /\ cleanup fails' landed = (Done, landed, [TStreamOff]).
Proof.
  unfold takeoff. destruct (fails TTakeoff); [discriminate|].
  destruct (fails (TSendRC 0 0 _ 0)); [discriminate|].
  intros _. cbn [fst snd].
  unfold cleanup, land. cbn [_airborne].
  destruct (fails TLand); [discriminate|].
  intros _. cbn [fst snd _airborne]. repeat split.
Qed.

Lemma land_once_per_flight_witness :
  let ok := fun _ : tello_call => false in
  let broken := fun _ : tello_call => true in
  let d := DroneConnection_init 25 in
  fst (fst (takeoff ok d)) = Done
  /\ fst (fst (land ok (snd (fst (takeoff ok d))))) = Done
  /\ cleanup broken (snd (fst (land ok (snd (fst (takeoff ok d))))))
     = (Done, snd (fst (land ok (snd (fst (takeoff ok d))))), [TStreamOff]).
Proof.
  intros ok broken d.
  assert (H1 : fst (fst (takeoff ok d)) = Done) by reflexivity.
  assert (H2 : fst (fst (land ok (snd (fst (takeoff ok d))))) = Done)
    by reflexivity.
  refine (conj H1 (conj H2 _)).
  exact (proj2 (proj2 (proj2 (land_once_per_flight ok broken d H1 H2)))).
Defined.

(** ** Face detector *)

Import Detector.

Lemma wrap32_small (z : Z) : - 2 ^ 31 <= z < 2 ^ 31 -> wrap32 z = z.
Proof. intros H. unfold wrap32. rewrite Z.mod_small; lia. Qed.

Lemma box_area_in_frame (b : box) : in_frame b -> box_area b = box_size b.
Proof.
  destruct b as [[[x y] w] h]. unfold in_frame, box_area, box_size.
  intros (_ & _ & Hw & Hh). apply wrap32_small.
  assert (0 <= w * h) by nia.
  assert (w * h < 2 ^ 15 * 2 ^ 15) by nia.
  lia.
Qed.

(** The scan ends on the first index of the largest value. *)
Lemma argmax_from_first_largest (l : list Z) :
  forall (pre : list Z) (best_i : nat) (best : Z),
    nth_error pre best_i = Some best ->
    (forall j a, nth_error pre j = Some a -> a <= best) ->
    (forall j a, (j < best_i)%nat -> nth_error pre j = Some a -> a < best) ->
    exists v : Z,
      nth_error (pre ++ l) (argmax_from best_i best (length pre) l) = Some v
      /\ (forall j a, nth_error (pre ++ l) j = Some a -> a <= v)
      /\ (forall j a,
            (j < argmax_from best_i best (length pre) l)%nat ->
            nth_error (pre ++ l) j = Some a -> a < v).
Proof.
  induction l as [|a l IH]; intros pre best_i best Hbest Hmax Hfirst.
  - simpl. rewrite app_nil_r. exists best. repeat split; assumption.
  - assert (Hin : (best_i < length pre)%nat)
      by (apply nth_error_Some; congruence).
    replace (pre ++ a :: l) with ((pre ++ [a]) ++ l)
      by (rewrite <- app_assoc; reflexivity).
    assert (Hlen : length (pre ++ [a]) = S (length pre))
      by (rewrite length_app; simpl; lia).
    cbn [argmax_from]. rewrite <- Hlen.
    destruct (Z.ltb_spec best a) as [Hlt|Hge].
    + apply IH.
      * rewrite nth_error_app2 by lia. now rewrite Nat.sub_diag.
      * intros j x Hj. destruct (Nat.lt_ge_cases j (length pre)) as [Hjl|Hjl].
        -- rewrite nth_error_app1 in Hj by lia.
           specialize (Hmax j x Hj). lia.
        -- rewrite nth_error_app2 in Hj by lia.
           destruct (j - length pre)%nat as [|k]; simpl in Hj.
           ++ inversion Hj. lia.
           ++ destruct k; discriminate.
      * intros j x Hjl Hj. rewrite nth_error_app1 in Hj by lia.
        specialize (Hmax j x Hj). lia.
    + apply IH.
      * now rewrite nth_error_app1 by lia.
      * intros j x Hj. destruct (Nat.lt_ge_cases j (length pre)) as [Hjl|Hjl].
        -- rewrite nth_error_app1 in Hj by lia. now apply (Hmax j).
        -- rewrite nth_error_app2 in Hj by lia.
           destruct (j - length pre)%nat as [|k]; simpl in Hj.
           ++ inversion Hj. lia.
           ++ destruct k; discriminate.
      * intros j x Hjl Hj. rewrite nth_error_app1 in Hj by lia.
        now apply (Hfirst j).
Qed.

Lemma argmax_first_largest (a : Z) (l : list Z) :
  exists v : Z,
    nth_error (a :: l) (argmax (a :: l)) = Some v
    /\ (forall j x, nth_error (a :: l) j = Some x -> x <= v)
    /\ (forall j x, (j < argmax (a :: l))%nat ->
                    nth_error (a :: l) j = Some x -> x < v).
Proof.
  apply (argmax_from_first_largest l [a] 0%nat a).
  - reflexivity.
  - intros [|[|j]] x Hj; simpl in Hj; try discriminate. inversion Hj. lia.
  - intros j x Hj. lia.
Qed.

(** X20.  On boxes with coordinates inside a frame, [detect] returns
    nothing exactly when there is no box; otherwise it returns one of the
    boxes, with its width times height as area and a center inside the
    box, and that box is the first one of the largest area. *)
Theorem detect_selects_first_largest (faces : list box) :
  Forall in_frame faces ->
  (detect faces = None <-> faces = [])
  /\ forall f : FaceInfo,
       detect faces = Some f ->
       exists (i : nat) (x y w h : Z),
         nth_error faces i = Some (x, y, w, h)
         /\ bbox f = (x, y, w, h)
         /\ area f = w * h
         /\ center_x f = x + w / 2
         /\ center_y f = y + h / 2
         /\ x <= center_x f <= x + w
         /\ y <= center_y f <= y + h
         /\ (forall j b, nth_error faces j = Some b -> box_size b <= w * h)
         /\ (forall j b, (j < i)%nat -> nth_error faces j = Some b ->
                         box_size b < w * h).
Proof.
  intros Hframe.
  destruct faces as [|b0 faces].
  - split; [split; reflexivity|]. intros f Hf. discriminate Hf.
  - assert (Hareas : map box_area (b0 :: faces) = map box_size (b0 :: faces)).
    { apply map_ext_in. intros b Hb. apply box_area_in_frame.
      rewrite Forall_forall in Hframe. now apply Hframe. }
    unfold detect. rewrite Hareas.
    destruct (argmax_first_largest (box_size b0) (map box_size faces))
      as (v & Hv & Hmax & Hfirst).
    change (box_size b0 :: map box_size faces)
      with (map box_size (b0 :: faces)) in *.
    set (i := argmax (map box_size (b0 :: faces))) in *.
    rewrite nth_error_map in Hv.
    destruct (nth_error (b0 :: faces) i) as [[[[x y] w] h]|] eqn:Hi;
      [|discriminate].
    cbn [option_map box_size] in Hv. inversion Hv; subst v.
    assert (Hbox : in_frame (x, y, w, h)).
    { rewrite Forall_forall in Hframe. apply Hframe.
      eapply nth_error_In; eassumption. }
    destruct Hbox as (Hx & Hy & Hw & Hh).
    assert (Hw2 : 0 <= w / 2 <= w)
      by (split; [apply Z.div_pos; lia|apply Z.div_le_upper_bound; lia]).
    assert (Hh2 : 0 <= h / 2 <= h)
      by (split; [apply Z.div_pos; lia|apply Z.div_le_upper_bound; lia]).
    assert (Ha : 0 <= w * h < 2 ^ 15 * 2 ^ 15) by nia.
    split; [split; discriminate|].
    intros f Hf. inversion Hf; subst f. cbn [bbox area center_x center_y].
    rewrite !wrap32_small by lia.
    exists i, x, y, w, h.
    split; [exact Hi|]. do 4 (split; [reflexivity|]).
    split; [lia|]. split; [lia|]. split.
    + intros j b Hj. apply (Hmax j).
      rewrite nth_error_map, Hj. reflexivity.
    + intros j b Hlt Hj. apply (Hfirst j _ Hlt).
      rewrite nth_error_map, Hj. reflexivity.
Qed.

Lemma detect_selects_first_largest_witness :
  let faces := [(10, 20, 100, 90); (400, 300, 120, 110);
                (600, 100, 110, 120)] in
  Forall in_frame faces
  /\ (detect faces = None <-> faces = []).
Proof.
  intros faces.
  assert (H : Forall in_frame faces)
    by (repeat constructor; simpl; lia).
  split; [exact H|].
  exact (proj1 (detect_selects_first_largest faces H)).
Defined.

Example detect_takes_first_of_equals :
  detect [(10, 20, 100, 90); (400, 300, 120, 110); (600, 100, 110, 120)]
  = Some (mkFaceInfo 460 355 13200 (400, 300, 120, 110)).
Proof. reflexivity. Qed.
